(** * Boids-ReactJS: the flocking rules of [src/boids.jsx]

    A shallow embedding of the class [BoidsModifier] and of the frame
    update [updateBoids] of the [Boids] component, and the properties of
    the specification that can be settled on them.

    Numbers.  A JavaScript number is modelled as an extended real: a real
    number, one of the two infinities, or NaN.  Arithmetic on finite values
    is exact (no rounding, no overflow) and zero is unsigned; the special
    values follow IEEE 754 as JavaScript does: [0/0] is NaN, [r/0] an
    infinity, every comparison with NaN is false.

    Store.  The array [boids] holds distinct objects that the rules mutate
    in place.  It is modelled as a [list Boid]; a boid object is named by
    its index in the array, so that [other !== boid] is a comparison of
    indices and a mutation of [boid] is an update of the list at its
    index. *)

From Stdlib Require Import Reals Lra Lia.
From stdpp Require Import base list.

(** ** Numbers *)

Inductive num : Type :=
| Fin (r : R)
| PInf
| NInf
| NaN.

Arguments Fin r%_R.

#[global] Instance Rlt_decision (a b : R) : Decision (a < b)%R := Rlt_dec a b.
#[global] Instance R_eq_decision : EqDecision R := Req_dec_T.

Module Num.

(** The infinity with the sign of [r]; NaN when [r] is zero. *)
Definition signed_inf (r : R) : num :=
  if decide (0 < r)%R then PInf
  else if decide (r < 0)%R then NInf
  else NaN.

Definition neg (a : num) : num :=
  match a with
  | Fin r => Fin (- r)
  | PInf => NInf
  | NInf => PInf
  | NaN => NaN
  end.

Definition add (a b : num) : num :=
  match a, b with
  | NaN, _ | _, NaN => NaN
  | Fin r, Fin s => Fin (r + s)
  | PInf, NInf | NInf, PInf => NaN
  | PInf, _ | _, PInf => PInf
  | NInf, _ | _, NInf => NInf
  end.

(** [a - b]; IEEE subtraction is addition of the opposite. *)
Definition sub (a b : num) : num := add a (neg b).

Definition mul (a b : num) : num :=
  match a, b with
  | NaN, _ | _, NaN => NaN
  | Fin r, Fin s => Fin (r * s)
  | Fin r, PInf | PInf, Fin r => signed_inf r
  | Fin r, NInf | NInf, Fin r => signed_inf (- r)
  | PInf, PInf | NInf, NInf => PInf
  | PInf, NInf | NInf, PInf => NInf
  end.

Definition div (a b : num) : num :=
  match a, b with
  | NaN, _ | _, NaN => NaN
  | Fin r, Fin s => if decide (s = 0)%R then signed_inf r else Fin (r / s)
  | Fin _, (PInf | NInf) => Fin 0
  | PInf, Fin s => if decide (s < 0)%R then NInf else PInf
  | NInf, Fin s => if decide (s < 0)%R then PInf else NInf
  | (PInf | NInf), (PInf | NInf) => NaN
  end.

(** [a < b] *)
Definition lt (a b : num) : bool :=
  match a, b with
  | NaN, _ | _, NaN => false
  | Fin r, Fin s => bool_decide (r < s)%R
  | NInf, (Fin _ | PInf) => true
  | Fin _, PInf => true
  | _, _ => false
  end.

(** [a > b] *)
Definition gt (a b : num) : bool := lt b a.

(** [a ** 2] *)
Definition pow2 (a : num) : num := mul a a.

(** [Math.sqrt(a)] *)
Definition sqrt (a : num) : num :=
  match a with
  | Fin r => if decide (r < 0)%R then NaN else Fin (R_sqrt.sqrt r)
  | PInf => PInf
  | NInf | NaN => NaN
  end.

(** [Math.hypot(a, b)]: an infinite argument wins over NaN. *)
Definition hypot (a b : num) : num :=
  match a, b with
  | (PInf | NInf), _ | _, (PInf | NInf) => PInf
  | NaN, _ | _, NaN => NaN
  | Fin r, Fin s => Fin (R_sqrt.sqrt (r * r + s * s))
  end.

(** The count kept by a loop, as a number. *)
Definition of_nat (n : nat) : num := Fin (INR n).

(** [Math.PI] *)
Definition pi : num := Fin PI.

(** [Math.cos(a)] and [Math.sin(a)]: NaN outside the finite numbers. *)
Definition cos (a : num) : num :=
  match a with
  | Fin r => Fin (Rtrigo_def.cos r)
  | _ => NaN
  end.

Definition sin (a : num) : num :=
  match a with
  | Fin r => Fin (Rtrigo_def.sin r)
  | _ => NaN
  end.

(** The angle of the finite vector [(a, b)], in the interval from -PI to
    PI.  The number model has one zero, which is read as [+0] here.
    [Math.atan2] tells the two zeros apart where [b] is zero and [a] is
    not positive: for [a < 0] it gives PI at [+0] and -PI at [-0], two
    directions with the same cosine and sine; for [a] zero as well it
    gives a zero or PI or -PI, after the signs of both.  No property of
    the drawing below depends on this choice. *)
Definition angle_of (b a : R) : R :=
  if decide (0 < a)%R then atan (b / a)
  else if decide (a < 0)%R then
    if decide (b < 0)%R then (atan (b / a) - PI)%R else (atan (b / a) + PI)%R
  else if decide (0 < b)%R then (PI / 2)%R
  else if decide (b < 0)%R then (- (PI / 2))%R
  else 0%R.

(** [Math.atan2(b, a)] *)
Definition atan2 (b a : num) : num :=
  match b, a with
  | NaN, _ | _, NaN => NaN
  | Fin s, Fin r => Fin (angle_of s r)
  | Fin s, PInf => Fin 0
  | Fin s, NInf => if decide (s < 0)%R then Fin (- PI) else Fin PI
  | PInf, Fin _ => Fin (PI / 2)
  | NInf, Fin _ => Fin (- (PI / 2))
  | PInf, PInf => Fin (PI / 4)
  | PInf, NInf => Fin (3 * PI / 4)
  | NInf, PInf => Fin (- (PI / 4))
  | NInf, NInf => Fin (- (3 * PI / 4))
  end.

End Num.

(** ** Values

    The rules are written for numbers and for the point objects [{x, y}],
    but [steer] applies [-] to two objects and reads [.x] of a number, the
    default parameter of [normalize] leaves [y] undefined, and the pointer
    holds [null] until the first [mousemove].  These are the values the
    embedding needs. *)

Record Vec : Type := { x : num; y : num }.

Inductive value : Type :=
| VUndefined
| VNull
| VNumber (n : num)
| VObject (o : Vec).

(** [ToNumber]: [undefined] is NaN, [null] is 0, and a plain object is NaN
    (its primitive is the string "[object Object]"). *)
Definition ToNumber (v : value) : num :=
  match v with
  | VUndefined => NaN
  | VNull => Fin 0
  | VNumber n => n
  | VObject _ => NaN
  end.

(** [a - b] on arbitrary values. *)
Definition minus (a b : value) : num := Num.sub (ToNumber a) (ToNumber b).

(** The two property names of a point. *)
Inductive key : Type := key_x | key_y.

(** [n.x] and [n.y] for a number [n]: a number has no such property. *)
Definition number_member (n : num) (k : key) : value := VUndefined.

(** ** Agents, pointer and configuration *)

(** A boid as [createBoid] makes it.  [angle] is written by [drawBoid]
    only and read by no rule. *)
Record Boid : Type := {
  position : Vec;
  velocity : Vec;
  angle : num;
}.

(** [mouseRef.current]: [{x: null, y: null}] until a [mousemove] stores
    the pointer's coordinates. *)
Record Mouse : Type := { mouse_x : value; mouse_y : value }.

Definition mouse_unset : Mouse := {| mouse_x := VNull; mouse_y := VNull |}.

(** The point [{x: mouse.x, y: mouse.y}] that [avoidMouse] measures the
    distance to, with its coordinates converted to numbers as the
    subtractions of [distance] convert them. *)
Definition mouse_point (mouse : Mouse) : Vec :=
  {| x := ToNumber (mouse_x mouse); y := ToNumber (mouse_y mouse) |}.

(** The fields the constructor stores, apart from the references
    [this.boids] and [this.mouse], which the rules below receive as
    arguments. *)
Record BoidsModifier : Type := {
  visualRange : num;
  reduceFactor : num;
  centeringFactor : num;
  matchingFactor : num;
  maxSpeed : num;
  smoothSpeed : num;
  acceleration : num;
  minDistanceBoid : num;
  avoidFactorBoid : num;
  minDistanceMouse : num;
  avoidFactorMouse : num;
}.

(** The [options] object: [None] is an absent (or [undefined]) property. *)
Record Options : Type := {
  opt_visualRange : option num;
  opt_reduceFactor : option num;
  opt_centeringFactor : option num;
  opt_matchingFactor : option num;
  opt_maxSpeed : option num;
  opt_smoothSpeed : option num;
  opt_acceleration : option num;
  opt_minDistanceBoid : option num;
  opt_avoidFactorBoid : option num;
  opt_minDistanceMouse : option num;
  opt_avoidFactorMouse : option num;
}.

(** [{}] *)
Definition no_options : Options :=
  {| opt_visualRange := None; opt_reduceFactor := None;
     opt_centeringFactor := None; opt_matchingFactor := None;
     opt_maxSpeed := None; opt_smoothSpeed := None;
     opt_acceleration := None; opt_minDistanceBoid := None;
     opt_avoidFactorBoid := None; opt_minDistanceMouse := None;
     opt_avoidFactorMouse := None |}.

(** What a caller may pass for the parameter [options]. *)
Inductive options_arg : Type :=
| ArgUndefined
| ArgNull
| ArgObject (o : Options).

Inductive exn : Type := TypeError.

Inductive completion (A : Type) : Type :=
| Normal (a : A)
| Throw (e : exn).

Arguments Normal {A} a.
Arguments Throw {A} e.

(** Destructuring with a default: the default applies to [undefined] only. *)
Definition or_default (o : option num) (d : num) : num :=
  match o with Some v => v | None => d end.

(** [constructor(boids, mouse, options = {})].  The parameter default
    replaces [undefined]; destructuring [null] throws a [TypeError]. *)
Definition constructor (options : options_arg) : completion BoidsModifier :=
  match options with
  | ArgNull => Throw TypeError
  | ArgUndefined | ArgObject _ =>
    let o := match options with ArgObject o => o | _ => no_options end in
    Normal
      {| visualRange := or_default (opt_visualRange o) (Fin 55);
         reduceFactor := or_default (opt_reduceFactor o) (Fin (5 / 10));
         centeringFactor := or_default (opt_centeringFactor o) (Fin (5 / 100));
         matchingFactor := or_default (opt_matchingFactor o) (Fin (5 / 100));
         maxSpeed := or_default (opt_maxSpeed o) (Fin (45 / 100));
         smoothSpeed := or_default (opt_smoothSpeed o) (Fin (3 / 10));
         acceleration := or_default (opt_acceleration o) (Fin (35 / 1000));
         minDistanceBoid := or_default (opt_minDistanceBoid o) (Fin 20);
         avoidFactorBoid := or_default (opt_avoidFactorBoid o) (Fin (5 / 100));
         minDistanceMouse := or_default (opt_minDistanceMouse o) (Fin 100);
         avoidFactorMouse := or_default (opt_avoidFactorMouse o) (Fin (25 / 1000)) |}
  end.

(** The modifier built from no options at all. *)
Definition default_modifier : BoidsModifier :=
  {| visualRange := Fin 55; reduceFactor := Fin (5 / 10);
     centeringFactor := Fin (5 / 100); matchingFactor := Fin (5 / 100);
     maxSpeed := Fin (45 / 100); smoothSpeed := Fin (3 / 10);
     acceleration := Fin (35 / 1000); minDistanceBoid := Fin 20;
     avoidFactorBoid := Fin (5 / 100); minDistanceMouse := Fin 100;
     avoidFactorMouse := Fin (25 / 1000) |}.

(** [boid.velocity.x = vx; boid.velocity.y = vy] *)
Definition set_velocity (vx vy : num) (b : Boid) : Boid :=
  {| position := position b;
     velocity := {| x := vx; y := vy |};
     angle := angle b |}.

(** [boid.position.x = px; boid.position.y = py] *)
Definition set_position (px py : num) (b : Boid) : Boid :=
  {| position := {| x := px; y := py |};
     velocity := velocity b;
     angle := angle b |}.

(** ** The rules of [BoidsModifier] *)

Section Rules.

Variable this : BoidsModifier.

(** [distance(boid1, boid2)] reads the two positions only; it is given
    them. *)
Definition distance (p1 p2 : Vec) : num :=
  Num.sqrt (Num.add (Num.pow2 (Num.sub (x p1) (x p2)))
                    (Num.pow2 (Num.sub (y p1) (y p2)))).

(** [normalize = (x, y) => ...]; the division converts its operand as
    [Math.hypot] does. *)
Definition normalize (vx vy : value) : Vec :=
  let magnitude := Num.hypot (ToNumber vx) (ToNumber vy) in
  if Num.gt magnitude (Fin 0)
  then {| x := Num.div (ToNumber vx) magnitude;
          y := Num.div (ToNumber vy) magnitude |}
  else {| x := Fin 0; y := Fin 0 |}.

Definition applyAcceleration (dx dy : num) : Vec :=
  let speed := Num.hypot (Num.pow2 dx) (Num.pow2 dy) in
  if Num.gt speed (maxSpeed this)
  then {| x := Num.mul (Num.div dx speed) (maxSpeed this);
          y := Num.mul (Num.div dy speed) (maxSpeed this) |}
  else {| x := dx; y := dy |}.

(** [steer(current, target)].  Both arguments are point objects: the two
    subtractions are of objects, [normalize] is first called with one
    argument, then with the properties [x] and [y] of a number. *)
Definition steer (current target : Vec) : Vec :=
  let desiredDir := minus (VObject target) (VObject current) in
  let desired := normalize (VNumber desiredDir) VUndefined in
  let steer := minus (VObject desired) (VObject current) in
  let normalizedSteer :=
    normalize (number_member steer key_x) (number_member steer key_y) in
  applyAcceleration
    (Num.mul (x normalizedSteer) (acceleration this))
    (Num.mul (y normalizedSteer) (acceleration this)).

(** The loop of [coherence]: the sums of the neighbours' coordinates and
    their count. *)
Definition coherence_loop (boid : Boid) (boids : list Boid) : num * num * nat :=
  foldl
    (fun '(centerX, centerY, numNeighbors) other =>
       if Num.lt (distance (position boid) (position other)) (visualRange this)
       then (Num.add centerX (x (position other)),
             Num.add centerY (y (position other)),
             S numNeighbors)
       else (centerX, centerY, numNeighbors))
    (Fin 0, Fin 0, 0) boids.

Definition coherence (boids : list Boid) (i : nat) : list Boid :=
  match boids !! i with
  | None => boids
  | Some boid =>
    let '(centerX, centerY, numNeighbors) := coherence_loop boid boids in
    if bool_decide (0 < numNeighbors) then
      let centerX := Num.div centerX (Num.of_nat numNeighbors) in
      let centerY := Num.div centerY (Num.of_nat numNeighbors) in
      let target := {| x := centerX; y := centerY |} in
      let steering := steer (position boid) target in
      <[i := set_velocity
               (Num.add (x (velocity boid)) (Num.mul (x steering) (centeringFactor this)))
               (Num.add (y (velocity boid)) (Num.mul (y steering) (centeringFactor this)))
               boid]> boids
    else boids
  end.

(** The loop of [avoidOthers], from the element of index [j] on;
    [other !== boid] compares the indices. *)
Fixpoint avoid_loop (boid : Boid) (i j : nat) (others : list Boid)
    (moveX moveY : num) : num * num :=
  match others with
  | [] => (moveX, moveY)
  | other :: rest =>
    let distance := distance (position boid) (position other) in
    if negb (bool_decide (j = i)) && Num.lt distance (minDistanceBoid this)
    then avoid_loop boid i (S j) rest
           (Num.add moveX (Num.sub (x (position boid)) (x (position other))))
           (Num.add moveY (Num.sub (y (position boid)) (y (position other))))
    else avoid_loop boid i (S j) rest moveX moveY
  end.

Definition avoidOthers (boids : list Boid) (i : nat) : list Boid :=
  match boids !! i with
  | None => boids
  | Some boid =>
    let '(moveX, moveY) := avoid_loop boid i 0 boids (Fin 0) (Fin 0) in
    let avoidVector := normalize (VNumber moveX) (VNumber moveY) in
    <[i := set_velocity
             (Num.add (x (velocity boid))
                (Num.mul (Num.mul (x avoidVector) (avoidFactorBoid this)) (reduceFactor this)))
             (Num.add (y (velocity boid))
                (Num.mul (Num.mul (y avoidVector) (avoidFactorBoid this)) (reduceFactor this)))
             boid]> boids
  end.

(** The loop of [matchVelocity]: the sums of the neighbours' velocities
    and their count. *)
Definition match_loop (boid : Boid) (boids : list Boid) : num * num * nat :=
  foldl
    (fun '(avgDX, avgDY, numNeighbors) other =>
       if Num.lt (distance (position boid) (position other)) (visualRange this)
       then (Num.add avgDX (x (velocity other)),
             Num.add avgDY (y (velocity other)),
             S numNeighbors)
       else (avgDX, avgDY, numNeighbors))
    (Fin 0, Fin 0, 0) boids.

(** The first half of [matchVelocity]: the velocity after the blend
    towards the neighbours' average. *)
Definition match_blend (boid : Boid) (boids : list Boid) : Vec :=
  let '(avgDX, avgDY, numNeighbors) := match_loop boid boids in
  if bool_decide (0 < numNeighbors) then
    let avgDX := Num.div avgDX (Num.of_nat numNeighbors) in
    let avgDY := Num.div avgDY (Num.of_nat numNeighbors) in
    {| x := Num.add (x (velocity boid))
              (Num.mul (Num.sub avgDX (x (velocity boid))) (matchingFactor this));
       y := Num.add (y (velocity boid))
              (Num.mul (Num.sub avgDY (y (velocity boid))) (matchingFactor this)) |}
  else velocity boid.

(** The second half of [matchVelocity]: the speed limits. *)
Definition match_rescale (v : Vec) : Vec :=
  let speed := Num.sqrt (Num.add (Num.pow2 (x v)) (Num.pow2 (y v))) in
  if Num.gt speed (maxSpeed this) then
    {| x := Num.mul (Num.div (x v) speed) (maxSpeed this);
       y := Num.mul (Num.div (y v) speed) (maxSpeed this) |}
  else if Num.lt speed (Num.mul (maxSpeed this) (Fin (5 / 10))) then
    {| x := Num.mul (Num.mul (Num.div (x v) speed) (maxSpeed this)) (Fin (75 / 100));
       y := Num.mul (Num.mul (Num.div (y v) speed) (maxSpeed this)) (Fin (75 / 100)) |}
  else v.

Definition matchVelocity (boids : list Boid) (i : nat) : list Boid :=
  match boids !! i with
  | None => boids
  | Some boid =>
    let v := match_rescale (match_blend boid boids) in
    <[i := set_velocity (x v) (y v) boid]> boids
  end.

Variable mouse : Mouse.

Definition avoidMouse (boids : list Boid) (i : nat) : list Boid :=
  match boids !! i with
  | None => boids
  | Some boid =>
    let mouseParsed := mouse_point mouse in
    let mouseDistance := distance (position boid) mouseParsed in
    if Num.lt mouseDistance (minDistanceMouse this) then
      let moveX := Num.sub (x (position boid)) (ToNumber (mouse_x mouse)) in
      let moveY := Num.sub (y (position boid)) (ToNumber (mouse_y mouse)) in
      let avoidVector := normalize (VNumber moveX) (VNumber moveY) in
      <[i := set_velocity
               (Num.add (x (velocity boid)) (Num.mul (x avoidVector) (avoidFactorMouse this)))
               (Num.add (y (velocity boid)) (Num.mul (y avoidVector) (avoidFactorMouse this)))
               boid]> boids
    else boids
  end.

Definition applyBehaviors (boids : list Boid) (i : nat) : list Boid :=
  let boids := coherence boids i in
  let boids := avoidOthers boids i in
  let boids := avoidMouse boids i in
  matchVelocity boids i.

End Rules.

(** ** The frame update of the component [Boids] *)

Section Frame.

Variable boidsModifier : BoidsModifier.
Variable mouse : Mouse.

(** [canvas.width], [canvas.height] and the property [size]. *)
Variables width height size : num.

(** [boid.position.x += boid.velocity.x; boid.position.y += boid.velocity.y] *)
Definition integrate (boids : list Boid) (i : nat) : list Boid :=
  match boids !! i with
  | None => boids
  | Some boid =>
    <[i := set_position
             (Num.add (x (position boid)) (x (velocity boid)))
             (Num.add (y (position boid)) (y (velocity boid)))
             boid]> boids
  end.

(** The two tests on one coordinate [c], in the order of the source:
    [if (c > bound + size) c = -size; if (c < -size) c = bound + size]. *)
Definition wrap_coordinate (bound c : num) : num :=
  let c := if Num.gt c (Num.add bound size) then Num.neg size else c in
  if Num.lt c (Num.neg size) then Num.add bound size else c.

Definition wrap (boids : list Boid) (i : nat) : list Boid :=
  match boids !! i with
  | None => boids
  | Some boid =>
    <[i := set_position
             (wrap_coordinate width (x (position boid)))
             (wrap_coordinate height (y (position boid)))
             boid]> boids
  end.

(** The position that one turn of the loop gives its boid. *)
Definition stepped_position (boid : Boid) : Vec :=
  {| x := wrap_coordinate width (Num.add (x (position boid)) (x (velocity boid)));
     y := wrap_coordinate height (Num.add (y (position boid)) (y (velocity boid))) |}.

(** The body of the loop of [updateBoids], for the boid of index [i]. *)
Definition update_boid (boids : list Boid) (i : nat) : list Boid :=
  let boids := integrate boids i in
  let boids := applyBehaviors boidsModifier mouse boids i in
  wrap boids i.

(** [for (const boid of boids)]: [n] elements remain, the next is the one
    of index [i]. *)
Fixpoint update_loop (n i : nat) (boids : list Boid) : list Boid :=
  match n with
  | 0 => boids
  | S n => update_loop n (S i) (update_boid boids i)
  end.

Definition updateBoids (boids : list Boid) : list Boid :=
  update_loop (length boids) 0 boids.

End Frame.

(** ** The component [Boids]

    The effect of the component builds the modifier from the options
    adjusted for a narrow window and then updates the boids once per
    frame; between two frames a [mousemove] may store a new pointer
    position.  [pointer] lists the content of [mouseRef.current] at each
    frame. *)

(** [{...options, maxSpeed: window.innerWidth < 768 ? 0.3 : options.maxSpeed}] *)
Definition mobileOptions (innerWidth : num) (options : Options) : Options :=
  {| opt_visualRange := opt_visualRange options;
     opt_reduceFactor := opt_reduceFactor options;
     opt_centeringFactor := opt_centeringFactor options;
     opt_matchingFactor := opt_matchingFactor options;
     opt_maxSpeed :=
       if Num.lt innerWidth (Fin 768) then Some (Fin (3 / 10))
       else opt_maxSpeed options;
     opt_smoothSpeed := opt_smoothSpeed options;
     opt_acceleration := opt_acceleration options;
     opt_minDistanceBoid := opt_minDistanceBoid options;
     opt_avoidFactorBoid := opt_avoidFactorBoid options;
     opt_minDistanceMouse := opt_minDistanceMouse options;
     opt_avoidFactorMouse := opt_avoidFactorMouse options |}.

Definition frames (this : BoidsModifier) (width height size : num)
    (pointer : list Mouse) (boids : list Boid) : list Boid :=
  foldl (fun boids mouse => updateBoids this mouse width height size boids)
        boids pointer.

Definition Boids (innerWidth width height size : num) (options : Options)
    (pointer : list Mouse) (boids : list Boid) : completion (list Boid) :=
  match constructor (ArgObject (mobileOptions innerWidth options)) with
  | Throw e => Throw e
  | Normal boidsModifier => Normal (frames boidsModifier width height size pointer boids)
  end.

(** The five results of [Math.random()] that [createBoid] consumes, in the
    order of the calls; each is a real in the interval from 0 (included)
    to 1 (excluded). *)
Record Draws : Type := {
  draw_position_x : R;
  draw_position_y : R;
  draw_velocity_x : R;
  draw_velocity_y : R;
  draw_angle : R;
}.

(** [createBoid], on a canvas of [width] by [height]. *)
Definition createBoid (width height : num) (random : Draws) : Boid :=
  {| position :=
       {| x := Num.mul (Fin (draw_position_x random)) width;
          y := Num.mul (Fin (draw_position_y random)) height |};
     velocity :=
       {| x := Num.sub (Num.mul (Fin (draw_velocity_x random)) (Fin 2)) (Fin 1);
          y := Num.sub (Num.mul (Fin (draw_velocity_y random)) (Fin 2)) (Fin 1) |};
     angle := Num.mul (Fin (draw_angle random)) (Fin 2) |}.

(** [boid.angle = a] *)
Definition set_angle (a : num) (b : Boid) : Boid :=
  {| position := position b; velocity := velocity b; angle := a |}.

(** The vertex of the triangle of [boid] in the direction [direction]. *)
Definition vertex (size : num) (boid : Boid) (direction : num) : Vec :=
  {| x := Num.add (x (position boid)) (Num.mul size (Num.cos direction));
     y := Num.add (y (position boid)) (Num.mul size (Num.sin direction)) |}.

(** [(2 * Math.PI) / 3] *)
Definition third_of_turn : num := Num.div (Num.mul (Fin 2) Num.pi) (Fin 3).

(** [drawBoid(boid)]: the boid with its angle set from its velocity, and
    the three points of the path that is filled on the canvas. *)
Definition drawBoid (size : num) (boid : Boid) : Boid * list Vec :=
  let boid := set_angle (Num.atan2 (y (velocity boid)) (x (velocity boid))) boid in
  let points :=
    [vertex size boid (angle boid);
     vertex size boid (Num.add (angle boid) third_of_turn);
     vertex size boid (Num.sub (angle boid) third_of_turn)] in
  (boid, points).

(** [render], without the request of the next frame: every boid is drawn,
    in the order of the array, then the boids are updated.  The result is
    the store and the triangles drawn. *)
Definition render (this : BoidsModifier) (mouse : Mouse) (width height size : num)
    (boids : list Boid) : list Boid * list (list Vec) :=
  let drawn := drawBoid size <$> boids in
  (updateBoids this mouse width height size (fst <$> drawn), snd <$> drawn).

(** ** The rules in the words of the specification

    Vector arithmetic on points, and the two rules whose description is
    compared with the code. *)

Definition vzero : Vec := {| x := Fin 0; y := Fin 0 |}.

Definition vadd (a b : Vec) : Vec :=
  {| x := Num.add (x a) (x b); y := Num.add (y a) (y b) |}.

Definition vsub (a b : Vec) : Vec :=
  {| x := Num.sub (x a) (x b); y := Num.sub (y a) (y b) |}.

Definition vscale (a : Vec) (k : num) : Vec :=
  {| x := Num.mul (x a) k; y := Num.mul (y a) k |}.

Definition dot (a b : Vec) : num :=
  Num.add (Num.mul (x a) (x b)) (Num.mul (y a) (y b)).

Definition magnitude (a : Vec) : num := Num.hypot (x a) (y a).

Definition vnormalize (a : Vec) : Vec :=
  normalize (VNumber (x a)) (VNumber (y a)).

(** A vector whose magnitude exceeds [limit] is shortened to [limit]. *)
Definition clamp_magnitude (limit : num) (a : Vec) : Vec :=
  if Num.gt (magnitude a) limit
  then vscale (vscale a (Num.div (Fin 1) (magnitude a))) limit
  else a.

(** The agents within [visualRange] of [boid], the agent itself among
    them. *)
Definition neighbors (this : BoidsModifier) (boid : Boid) (boids : list Boid) : list Boid :=
  filter (fun other =>
            Num.lt (distance (position boid) (position other)) (visualRange this) = true)
         boids.

(** Cohesion as the specification words it: the steering vector
    [normalize(normalize(target - position) - position)], limited to the
    acceleration, then to the maximal speed. *)
Definition steering_spec (this : BoidsModifier) (position target : Vec) : Vec :=
  clamp_magnitude (maxSpeed this)
    (clamp_magnitude (acceleration this)
       (vnormalize (vsub (vnormalize (vsub target position)) position))).

(** The centroid of the neighbours of [boid]. *)
Definition centroid_spec (this : BoidsModifier) (boid : Boid) (boids : list Boid) : Vec :=
  let others := neighbors this boid boids in
  let total := foldr (fun other => vadd (position other)) vzero others in
  {| x := Num.div (x total) (Num.of_nat (length others));
     y := Num.div (y total) (Num.of_nat (length others)) |}.

Definition cohesion_spec (this : BoidsModifier) (boid : Boid) (boids : list Boid) : Vec :=
  vadd (velocity boid)
       (vscale (steering_spec this (position boid) (centroid_spec this boid boids))
               (centeringFactor this)).

(** Separation as the specification words it: the other agents within
    [minDistanceBoid] of the agent of index [i] (the list is scanned from
    index [j]), and the sum of the displacements from them. *)
Fixpoint others_within (this : BoidsModifier) (boid : Boid) (i j : nat)
    (boids : list Boid) : list Boid :=
  match boids with
  | [] => []
  | other :: rest =>
    if bool_decide (j ≠ i)
       && Num.lt (distance (position boid) (position other)) (minDistanceBoid this)
    then other :: others_within this boid i (S j) rest
    else others_within this boid i (S j) rest
  end.

Definition displacement_sum (boid : Boid) (others : list Boid) : Vec :=
  foldr (fun other => vadd (vsub (position boid) (position other))) vzero others.

Definition separation_spec (this : BoidsModifier) (boid : Boid) (i : nat)
    (boids : list Boid) : Vec :=
  vadd (velocity boid)
       (vscale (vnormalize (displacement_sum boid (others_within this boid i 0 boids)))
               (Num.mul (avoidFactorBoid this) (reduceFactor this))).

(** Alignment as the specification words it: the average of the
    velocities of the neighbours, and the blend of the velocity towards
    it. *)
Definition average_velocity (others : list Boid) : Vec :=
  let total := foldr (fun other => vadd (velocity other)) vzero others in
  {| x := Num.div (x total) (Num.of_nat (length others));
     y := Num.div (y total) (Num.of_nat (length others)) |}.

Definition alignment_spec (this : BoidsModifier) (boid : Boid) (boids : list Boid) : Vec :=
  let avg := average_velocity (neighbors this boid boids) in
  vadd (velocity boid) (vscale (vsub avg (velocity boid)) (matchingFactor this)).

(** ** What a rule may change

    [velocity_step i boids boids']: the store [boids'] is [boids], or
    [boids] with a new velocity for the boid of index [i]. *)

Inductive velocity_step (i : nat) (boids : list Boid) : list Boid → Prop :=
| velocity_step_same : velocity_step i boids boids
| velocity_step_set boid vx vy :
    boids !! i = Some boid →
    velocity_step i boids (<[i := set_velocity vx vy boid]> boids).

(** ** Scenarios *)

Definition point (px py : R) : Vec := {| x := Fin px; y := Fin py |}.

(** A boid at [(px, py)] with velocity [(vx, vy)]. *)
Definition boid_at (px py vx vy : R) : Boid :=
  {| position := point px py; velocity := point vx vy; angle := Fin 0 |}.

(** One boid at rest at the origin. *)
Definition flock_at_rest : list Boid := [boid_at 0 0 0 0].

(** Two boids at rest, 10 apart. *)
Definition pair_at_rest : list Boid := [boid_at 0 0 0 0; boid_at 10 0 0 0].

(** One boid at the origin, moving with velocity (3, 4). *)
Definition flock_moving : list Boid := [boid_at 0 0 3 4].

(** Options that hold a maximal speed of zero and negative factors and
    distances. *)
Definition malformed_options : Options :=
  {| opt_visualRange := Some (Fin (-55)); opt_reduceFactor := Some (Fin (-1));
     opt_centeringFactor := None; opt_matchingFactor := None;
     opt_maxSpeed := Some (Fin 0); opt_smoothSpeed := None;
     opt_acceleration := None; opt_minDistanceBoid := Some (Fin (-20));
     opt_avoidFactorBoid := None; opt_minDistanceMouse := None;
     opt_avoidFactorMouse := None |}.

(** One boid at rest at (3, 4), at distance 5 of the corner (0, 0) of
    the canvas. *)
Definition flock_near_corner : list Boid := [boid_at 3 4 0 0].

(** The pointer at [(mx, my)]. *)
Definition mouse_at (mx my : R) : Mouse :=
  {| mouse_x := VNumber (Fin mx); mouse_y := VNumber (Fin my) |}.

(** Two boids at rest, 5 apart along the [x] axis, far from the corner
    (0, 0), on a canvas of 800 by 600 with boids drawn at size 8. *)
Definition pair_close : list Boid := [boid_at 300 400 0 0; boid_at 305 400 0 0].

(** One frame of the component on [boids], with the default options and a
    pointer that was never moved. *)
Definition one_frame (boids : list Boid) : list Boid :=
  updateBoids default_modifier mouse_unset (Fin 800) (Fin 600) (Fin 8) boids.

(** One boid about to leave the canvas of 800 by 600 on the right. *)
Definition flock_leaving : list Boid := [boid_at 805 300 5 0].

(** Two boids 5 apart that both move to the right at speed 0.5. *)
Definition pair_moving : list Boid := [boid_at 300 400 (5 / 10) 0; boid_at 305 400 (5 / 10) 0].


(** What [Math.random()] may return, and five such results. *)
Definition random_result (r : R) : Prop := (0 <= r < 1)%R.

Definition random_draws (random : Draws) : Prop :=
  random_result (draw_position_x random)
  ∧ random_result (draw_position_y random)
  ∧ random_result (draw_velocity_x random)
  ∧ random_result (draw_velocity_y random)
  ∧ random_result (draw_angle random).

(** The results 0.25, 0.5, 0.75, 0 and 0.5. *)
Definition some_draws : Draws :=
  {| draw_position_x := 25 / 100; draw_position_y := 5 / 10;
     draw_velocity_x := 75 / 100; draw_velocity_y := 0; draw_angle := 5 / 10 |}.

(** The vector whose two coordinates are NaN. *)
Definition nan_vec : Vec := {| x := NaN; y := NaN |}.

(** A boid without the angle that [drawBoid] stored. *)
Definition erase_angle (b : Boid) : Boid := set_angle (Fin 0) b.

(** A boid whose position and velocity are NaN, and one at the origin
    whose velocity alone is. *)
Definition lost (b : Boid) : Prop := position b = nan_vec ∧ velocity b = nan_vec.

Definition stalled_boid : Boid :=
  {| position := point 0 0; velocity := nan_vec; angle := Fin 0 |}.

(** * Properties *)

(** ** Arithmetic of the number model *)

Module NumFacts.

Import Num.

Lemma lt_Fin (a b : R) : lt (Fin a) (Fin b) = true ↔ (a < b)%R.
Proof. apply bool_decide_eq_true. Qed.

Lemma lt_Fin_true (a b : R) : (a < b)%R → lt (Fin a) (Fin b) = true.
Proof. apply lt_Fin. Qed.

Lemma lt_Fin_false (a b : R) : (b <= a)%R → lt (Fin a) (Fin b) = false.
Proof. intros H. apply bool_decide_eq_false. lra. Qed.

Lemma lt_irrefl (a : num) : lt a a = false.
Proof. destruct a; try reflexivity. apply lt_Fin_false. lra. Qed.

Lemma add_comm (a b : num) : add a b = add b a.
Proof. destruct a, b; try reflexivity. simpl. f_equal. lra. Qed.

Lemma add_assoc (a b c : num) : add a (add b c) = add (add a b) c.
Proof. destruct a, b, c; try reflexivity. simpl. f_equal. lra. Qed.

Lemma add_0_l (a : num) : add (Fin 0) a = a.
Proof. destruct a; try reflexivity. simpl. f_equal. lra. Qed.

Lemma add_0_r (a : num) : add a (Fin 0) = a.
Proof. rewrite add_comm. apply add_0_l. Qed.

Lemma mul_comm (a b : num) : mul a b = mul b a.
Proof. destruct a, b; try reflexivity. simpl. f_equal. lra. Qed.

Lemma signed_inf_pos (r : R) : (0 < r)%R → signed_inf r = PInf.
Proof. intros H. unfold signed_inf. by rewrite decide_True. Qed.

Lemma signed_inf_neg (r : R) : (r < 0)%R → signed_inf r = NInf.
Proof.
  intros H. unfold signed_inf.
  rewrite decide_False by lra. by rewrite decide_True.
Qed.

Lemma signed_inf_0 : signed_inf 0 = NaN.
Proof. unfold signed_inf. by rewrite !decide_False by lra. Qed.

Lemma mul_assoc (a b c : num) : mul a (mul b c) = mul (mul a b) c.
Proof.
  destruct a as [p| | |], b as [q| | |], c as [r| | |];
    cbn [mul]; try reflexivity;
    unfold signed_inf;
    repeat (case_decide; cbn [mul]; unfold signed_inf);
    try reflexivity; try (f_equal; lra); try (exfalso; nra);
    exfalso;
    match goal with
    | H1 : ¬ (0 < ?q)%R, H2 : ¬ (?q < 0)%R |- _ =>
      assert (q = 0)%R as Hq by lra; try rewrite Hq in *; nra
    end.
Qed.

Lemma sqrt_Fin (r : R) : (0 <= r)%R → sqrt (Fin r) = Fin (R_sqrt.sqrt r).
Proof. intros H. unfold sqrt. by rewrite decide_False by lra. Qed.

(** The square root of a square that is written out. *)
Lemma sqrt_of_square (c r : R) : (0 <= c)%R → (r = c * c)%R → R_sqrt.sqrt r = c.
Proof. intros Hc ->. by apply sqrt_square. Qed.

Lemma div_Fin (a b : R) : (b ≠ 0)%R → div (Fin a) (Fin b) = Fin (a / b).
Proof. intros H. unfold div. by rewrite decide_False. Qed.

Lemma div_0_0 : div (Fin 0) (Fin 0) = NaN.
Proof. unfold div. rewrite decide_True by reflexivity. apply signed_inf_0. Qed.

End NumFacts.

(** ** Frame: a rule changes the velocity of its boid and nothing else *)

Section FrameFacts.

Variable this : BoidsModifier.
Variable mouse : Mouse.

Lemma set_velocity_set_velocity vx vy vx' vy' boid :
  set_velocity vx' vy' (set_velocity vx vy boid) = set_velocity vx' vy' boid.
Proof. reflexivity. Qed.

Lemma velocity_step_trans i boids1 boids2 boids3 :
  velocity_step i boids1 boids2 →
  velocity_step i boids2 boids3 →
  velocity_step i boids1 boids3.
Proof.
  intros H12 H23. destruct H12 as [|boid vx vy Hi]; [done|].
  inversion H23 as [|boid' vx' vy' Hi' Heq]; subst.
  - by constructor.
  - rewrite list_lookup_insert_eq in Hi' by (by eapply lookup_lt_Some).
    injection Hi' as <-.
    rewrite list_insert_insert_eq, set_velocity_set_velocity.
    by constructor.
Qed.

Lemma velocity_step_length i boids boids' :
  velocity_step i boids boids' → length boids' = length boids.
Proof. intros []; [done|]. apply length_insert. Qed.

Lemma velocity_step_other i j boids boids' :
  velocity_step i boids boids' → j ≠ i → boids' !! j = boids !! j.
Proof. intros [] Hne; [done|]. by apply list_lookup_insert_ne. Qed.

Lemma velocity_step_positions i boids boids' :
  velocity_step i boids boids' → position <$> boids' = position <$> boids.
Proof.
  intros [|boid vx vy Hi]; [done|].
  rewrite list_fmap_insert. apply list_insert_id.
  by rewrite list_lookup_fmap, Hi.
Qed.

Lemma velocity_step_angles i boids boids' :
  velocity_step i boids boids' → angle <$> boids' = angle <$> boids.
Proof.
  intros [|boid vx vy Hi]; [done|].
  rewrite list_fmap_insert. apply list_insert_id.
  by rewrite list_lookup_fmap, Hi.
Qed.

(** At its own index a step keeps the position and the angle. *)
Lemma velocity_step_self i boids boids' boid :
  velocity_step i boids boids' →
  boids !! i = Some boid →
  ∃ vx vy, boids' !! i = Some (set_velocity vx vy boid).
Proof.
  intros [|boid' vx vy Hi] Hb.
  - exists (x (velocity boid)), (y (velocity boid)).
    rewrite Hb. by destruct boid as [p [vx vy] a].
  - rewrite Hi in Hb. injection Hb as ->. exists vx, vy.
    apply list_lookup_insert_eq. by eapply lookup_lt_Some.
Qed.

Lemma coherence_step boids i : velocity_step i boids (coherence this boids i).
Proof.
  unfold coherence. destruct (boids !! i) as [boid|] eqn:Hi; [|constructor].
  destruct (coherence_loop this boid boids) as [[cx cy] n].
  case_bool_decide; by constructor.
Qed.

Lemma avoidOthers_step boids i : velocity_step i boids (avoidOthers this boids i).
Proof.
  unfold avoidOthers. destruct (boids !! i) as [boid|] eqn:Hi; [|constructor].
  destruct (avoid_loop this boid i 0 boids (Fin 0) (Fin 0)) as [mx my].
  by constructor.
Qed.

Lemma avoidMouse_step boids i : velocity_step i boids (avoidMouse this mouse boids i).
Proof.
  unfold avoidMouse. destruct (boids !! i) as [boid|] eqn:Hi; [|constructor].
  destruct (Num.lt _ _); by constructor.
Qed.

Lemma matchVelocity_step boids i : velocity_step i boids (matchVelocity this boids i).
Proof.
  unfold matchVelocity. destruct (boids !! i) as [boid|] eqn:Hi; by constructor.
Qed.

Lemma applyBehaviors_step boids i :
  velocity_step i boids (applyBehaviors this mouse boids i).
Proof.
  unfold applyBehaviors.
  eapply velocity_step_trans; [|apply matchVelocity_step].
  eapply velocity_step_trans; [|apply avoidMouse_step].
  eapply velocity_step_trans; [|apply avoidOthers_step].
  apply coherence_step.
Qed.

End FrameFacts.

(** C10. Applying the behaviour rules to the boid of index [i] changes no
    position of any boid (nor any angle, nor the number of boids) and
    leaves every boid other than the one of index [i] as it was: only the
    velocity of that boid can differ. *)
Theorem applyBehaviors_frame (this : BoidsModifier) (mouse : Mouse)
    (boids : list Boid) (i : nat) :
  let boids' := applyBehaviors this mouse boids i in
  position <$> boids' = position <$> boids
  ∧ angle <$> boids' = angle <$> boids
  ∧ length boids' = length boids
  ∧ ∀ j, j ≠ i → boids' !! j = boids !! j.
Proof.
  pose proof (applyBehaviors_step this mouse boids i) as Hstep.
  cbv zeta. split_and!.
  - by eapply velocity_step_positions.
  - by eapply velocity_step_angles.
  - by eapply velocity_step_length.
  - intros j Hj. by eapply velocity_step_other.
Qed.

(** ** The frame update, boid by boid *)

Section UpdateFacts.

Variable this : BoidsModifier.
Variable mouse : Mouse.
Variables width height size : num.

#[local] Abbreviation turn := (update_boid this mouse width height size).
#[local] Abbreviation loop := (update_loop this mouse width height size).
#[local] Abbreviation wrapped := (wrap width height size).


Lemma integrate_length boids i : length (integrate boids i) = length boids.
Proof.
  unfold integrate. destruct (boids !! i); [|done]. apply length_insert.
Qed.

Lemma integrate_other boids i j : j ≠ i → integrate boids i !! j = boids !! j.
Proof.
  intros Hne. unfold integrate. destruct (boids !! i); [|done].
  by apply list_lookup_insert_ne.
Qed.

Lemma integrate_self boids i boid :
  boids !! i = Some boid →
  integrate boids i !! i
  = Some (set_position (Num.add (x (position boid)) (x (velocity boid)))
                       (Num.add (y (position boid)) (y (velocity boid))) boid).
Proof.
  intros Hi. unfold integrate. rewrite Hi.
  apply list_lookup_insert_eq. by eapply lookup_lt_Some.
Qed.

Lemma wrap_length boids i : length (wrapped boids i) = length boids.
Proof.
  unfold wrap. destruct (boids !! i); [|done]. apply length_insert.
Qed.

Lemma wrap_other boids i j : j ≠ i → wrapped boids i !! j = boids !! j.
Proof.
  intros Hne. unfold wrap. destruct (boids !! i); [|done].
  by apply list_lookup_insert_ne.
Qed.

Lemma wrap_self boids i boid :
  boids !! i = Some boid →
  wrapped boids i !! i
  = Some (set_position (wrap_coordinate size width (x (position boid)))
                       (wrap_coordinate size height (y (position boid))) boid).
Proof.
  intros Hi. unfold wrap. rewrite Hi.
  apply list_lookup_insert_eq. by eapply lookup_lt_Some.
Qed.

Lemma update_boid_length boids i : length (turn boids i) = length boids.
Proof.
  unfold update_boid. rewrite wrap_length.
  rewrite (velocity_step_length i _ _ (applyBehaviors_step this mouse _ i)).
  apply integrate_length.
Qed.

Lemma update_boid_other boids i j : j ≠ i → turn boids i !! j = boids !! j.
Proof.
  intros Hne. unfold update_boid. rewrite wrap_other by done.
  rewrite (velocity_step_other i j _ _ (applyBehaviors_step this mouse _ i)) by done.
  by apply integrate_other.
Qed.

Lemma update_boid_self boids i boid :
  boids !! i = Some boid →
  ∃ boid', turn boids i !! i = Some boid'
           ∧ position boid' = stepped_position width height size boid.
Proof.
  intros Hi. unfold update_boid.
  pose proof (integrate_self boids i boid Hi) as Hint.
  destruct (velocity_step_self i _ _ _ (applyBehaviors_step this mouse _ i) Hint)
    as (vx & vy & Hrules).
  rewrite (wrap_self _ _ _ Hrules). eexists. split; [done|]. reflexivity.
Qed.

Lemma update_loop_length n i boids : length (loop n i boids) = length boids.
Proof.
  revert i boids. induction n as [|n IH]; intros i boids; [done|].
  simpl. rewrite IH. apply update_boid_length.
Qed.

(** The turns of the boids from index [k] on leave the earlier ones alone. *)
Lemma update_loop_before n k boids i :
  i < k → loop n k boids !! i = boids !! i.
Proof.
  revert k boids. induction n as [|n IH]; intros k boids Hlt; [done|].
  simpl. rewrite IH by lia. apply update_boid_other. lia.
Qed.

Lemma update_loop_position n k boids i boid :
  boids !! i = Some boid →
  k ≤ i < k + n →
  ∃ boid', loop n k boids !! i = Some boid'
           ∧ position boid' = stepped_position width height size boid.
Proof.
  revert k boids. induction n as [|n IH]; intros k boids Hi Hrange; [lia|].
  simpl. destruct (decide (i = k)) as [->|Hne].
  - destruct (update_boid_self boids k boid Hi) as (boid' & Hk & Hpos).
    exists boid'. split; [|done].
    rewrite update_loop_before by lia. done.
  - apply IH; [|lia]. by rewrite update_boid_other.
Qed.

End UpdateFacts.

Section WrapFacts.

Import Num NumFacts.

Variables size bound : num.

Lemma wrap_coordinate_above c :
  gt c (add bound size) = true → wrap_coordinate size bound c = neg size.
Proof.
  intros H. unfold wrap_coordinate. rewrite H. by rewrite lt_irrefl.
Qed.

Lemma wrap_coordinate_below c :
  gt c (add bound size) = false → lt c (neg size) = true →
  wrap_coordinate size bound c = add bound size.
Proof. intros H1 H2. unfold wrap_coordinate. by rewrite H1, H2. Qed.

Lemma wrap_coordinate_inside c :
  gt c (add bound size) = false → lt c (neg size) = false →
  wrap_coordinate size bound c = c.
Proof. intros H1 H2. unfold wrap_coordinate. by rewrite H1, H2. Qed.

End WrapFacts.

(** The three cases of the wrap on finite values, when the band
    [[-size, bound + size]] is not empty. *)
Lemma wrap_coordinate_Fin (size bound c : R) :
  (- size <= bound + size)%R →
  ((bound + size < c)%R → wrap_coordinate (Fin size) (Fin bound) (Fin c) = Fin (- size))
  ∧ ((c < - size)%R → wrap_coordinate (Fin size) (Fin bound) (Fin c) = Fin (bound + size))
  ∧ ((- size <= c <= bound + size)%R →
     wrap_coordinate (Fin size) (Fin bound) (Fin c) = Fin c).
Proof.
  intros Hband. split_and!; intros Hc.
  - apply wrap_coordinate_above. by apply NumFacts.lt_Fin_true.
  - apply wrap_coordinate_below.
    + apply NumFacts.lt_Fin_false. lra.
    + by apply NumFacts.lt_Fin_true.
  - apply wrap_coordinate_inside; apply NumFacts.lt_Fin_false; simpl; lra.
Qed.


(** C7. After a step, each coordinate of each boid is the wrap of the
    coordinate the integration gave it: [-size] when that coordinate
    exceeds [bound + size], [bound + size] when it is below [-size], and
    the coordinate itself when it lies in the band [[-size, bound + size]]
    ([bound] is the canvas' width for [x] and its height for [y], and the
    band is not empty). *)
Theorem updateBoids_wrap (this : BoidsModifier) (mouse : Mouse)
    (width height size px py vx vy : R) (boids : list Boid) (i : nat) (boid : Boid) :
  boids !! i = Some boid →
  position boid = point px py →
  velocity boid = point vx vy →
  (- size <= width + size)%R →
  (- size <= height + size)%R →
  ∃ boid',
    updateBoids this mouse (Fin width) (Fin height) (Fin size) boids !! i = Some boid'
    ∧ ((width + size < px + vx)%R → x (position boid') = Fin (- size))
    ∧ ((px + vx < - size)%R → x (position boid') = Fin (width + size))
    ∧ ((- size <= px + vx <= width + size)%R → x (position boid') = Fin (px + vx))
    ∧ ((height + size < py + vy)%R → y (position boid') = Fin (- size))
    ∧ ((py + vy < - size)%R → y (position boid') = Fin (height + size))
    ∧ ((- size <= py + vy <= height + size)%R → y (position boid') = Fin (py + vy)).
Proof.
  intros Hi Hp Hv Hw Hh.
  destruct (update_loop_position this mouse (Fin width) (Fin height) (Fin size)
              (length boids) 0 boids i boid Hi) as (boid' & Hlook & Hpos).
  { split; [lia|]. simpl. by eapply lookup_lt_Some. }
  exists boid'. split; [exact Hlook|].
  rewrite Hpos. unfold stepped_position. rewrite Hp, Hv. simpl.
  destruct (wrap_coordinate_Fin size width (px + vx) Hw) as (Hx1 & Hx2 & Hx3).
  destruct (wrap_coordinate_Fin size height (py + vy) Hh) as (Hy1 & Hy2 & Hy3).
  split_and!; assumption.
Qed.

(** A boid at [x = 805] moving right by 5 on a canvas of width 800, drawn
    at size 8: it reappears at [x = -8], and its [y] is unchanged. *)
Lemma updateBoids_wrap_witness :
  ∃ boid',
    one_frame flock_leaving !! 0 = Some boid'
    ∧ x (position boid') = Fin (- 8)
    ∧ y (position boid') = Fin (300 + 0).
Proof.
  destruct (updateBoids_wrap default_modifier mouse_unset 800 600 8 805 300 5 0
              flock_leaving 0 (boid_at 805 300 5 0))
    as (boid' & Hlook & Hright & _ & _ & _ & _ & Hinside);
    [reflexivity | reflexivity | reflexivity | lra | lra |].
  exists boid'. split; [exact Hlook|]. split; [apply Hright|apply Hinside]; lra.
Defined.

(** ** Distances and normalisation on finite points *)

Section FiniteFacts.

Import Num NumFacts.

Lemma sum_squares_nonneg (a b : R) : (0 <= a * a + b * b)%R.
Proof. nra. Qed.

Lemma distance_Fin (a b c d : R) :
  distance (point a b) (point c d)
  = Fin (R_sqrt.sqrt ((a - c) * (a - c) + (b - d) * (b - d))).
Proof.
  unfold distance. cbn -[sqrt]. rewrite sqrt_Fin by apply sum_squares_nonneg.
  reflexivity.
Qed.

Lemma sqrt_lt_square (r q : R) :
  (0 <= r)%R → (0 < q)%R → (r < q * q)%R → (R_sqrt.sqrt r < q)%R.
Proof.
  intros Hr Hq Hlt. rewrite <- (sqrt_square q) by lra.
  apply sqrt_lt_1_alt. lra.
Qed.

Lemma sqrt_ge_square (r q : R) :
  (0 <= q)%R → (q * q <= r)%R → (q <= R_sqrt.sqrt r)%R.
Proof.
  intros Hq Hle. rewrite <- (sqrt_square q) at 1 by lra.
  apply sqrt_le_1_alt. lra.
Qed.

(** The test [distance(p, q) < range] on finite points. *)
Lemma distance_lt_true (a b c d range : R) :
  (0 < range)%R →
  ((a - c) * (a - c) + (b - d) * (b - d) < range * range)%R →
  lt (distance (point a b) (point c d)) (Fin range) = true.
Proof.
  intros Hr Hlt. rewrite distance_Fin. apply lt_Fin_true.
  apply sqrt_lt_square; [apply sum_squares_nonneg|done..].
Qed.

Lemma distance_lt_false (a b c d range : R) :
  (0 <= range)%R →
  (range * range <= (a - c) * (a - c) + (b - d) * (b - d))%R →
  lt (distance (point a b) (point c d)) (Fin range) = false.
Proof.
  intros Hr Hle. rewrite distance_Fin. apply lt_Fin_false.
  by apply sqrt_ge_square.
Qed.

Lemma normalize_Fin (a b : R) :
  (0 < R_sqrt.sqrt (a * a + b * b))%R →
  vnormalize (point a b)
  = point (a / R_sqrt.sqrt (a * a + b * b)) (b / R_sqrt.sqrt (a * a + b * b)).
Proof.
  intros Hm. unfold vnormalize, normalize, point, gt.
  cbn [x y ToNumber hypot]. rewrite lt_Fin_true by done.
  rewrite !div_Fin by lra. reflexivity.
Qed.


(** A vector of magnitude [m > 0] normalises to its quotient by [m]. *)
Lemma normalize_of_magnitude (a b m : R) :
  (0 < m)%R → (a * a + b * b = m * m)%R →
  vnormalize (point a b) = point (a / m) (b / m).
Proof.
  intros Hm Hsq.
  assert (R_sqrt.sqrt (a * a + b * b) = m) as Hs
    by (apply sqrt_of_square; lra).
  rewrite normalize_Fin by lra. by rewrite Hs.
Qed.


End FiniteFacts.







(** ** Alignment *)

Section AlignmentFacts.

Import Num NumFacts.

Variable this : BoidsModifier.

(** The loop of [matchVelocity] sums the velocities of the neighbours and
    counts them. *)
Lemma match_loop_from boid boids avgDX avgDY numNeighbors :
  foldl
    (fun '(avgDX, avgDY, numNeighbors) other =>
       if lt (distance (position boid) (position other)) (visualRange this)
       then (add avgDX (x (velocity other)), add avgDY (y (velocity other)),
             S numNeighbors)
       else (avgDX, avgDY, numNeighbors))
    (avgDX, avgDY, numNeighbors) boids
  = let others := neighbors this boid boids in
    let total := foldr (fun other => vadd (velocity other)) vzero others in
    (add avgDX (x total), add avgDY (y total), numNeighbors + length others).
Proof.
  revert avgDX avgDY numNeighbors.
  induction boids as [|other boids IH]; intros avgDX avgDY numNeighbors.
  - simpl. rewrite !add_0_r. f_equal. lia.
  - cbn [foldl]. unfold neighbors. rewrite filter_cons.
    destruct (lt (distance (position boid) (position other)) (visualRange this))
      eqn:Hnear.
    + rewrite decide_True by done. rewrite IH. cbn [foldr length vadd x y].
      fold (neighbors this boid boids). rewrite <- !add_assoc.
      f_equal. lia.
    + rewrite decide_False by done. apply IH.
Qed.

Lemma match_loop_sums boid boids :
  match_loop this boid boids
  = let others := neighbors this boid boids in
    let total := foldr (fun other => vadd (velocity other)) vzero others in
    (x total, y total, length others).
Proof.
  unfold match_loop. rewrite match_loop_from. cbv zeta.
  by rewrite !add_0_l.
Qed.

(** With a neighbour in range, the blend of the code is the linear
    interpolation towards the neighbours' average velocity. *)
Lemma match_blend_spec boid boids :
  neighbors this boid boids ≠ [] →
  match_blend this boid boids = alignment_spec this boid boids.
Proof.
  intros Hne. unfold match_blend. rewrite match_loop_sums. cbv zeta iota beta.
  rewrite bool_decide_eq_true_2; [done|].
  destruct (neighbors this boid boids); [done|]. simpl. lia.
Qed.

Lemma match_blend_alone boid boids :
  neighbors this boid boids = [] →
  match_blend this boid boids = velocity boid.
Proof.
  intros Hne. unfold match_blend. rewrite match_loop_sums, Hne. reflexivity.
Qed.

Lemma speed_Fin (bx by_ : R) :
  sqrt (add (pow2 (Fin bx)) (pow2 (Fin by_)))
  = Fin (R_sqrt.sqrt (bx * bx + by_ * by_)).
Proof. cbn -[sqrt]. apply sqrt_Fin, sum_squares_nonneg. Qed.

Variable ms : R.
Hypothesis this_maxSpeed : maxSpeed this = Fin ms.

(** The three branches of the speed limits on a finite velocity. *)
Lemma match_rescale_above (bx by_ : R) :
  let speed := R_sqrt.sqrt (bx * bx + by_ * by_) in
  (0 <= ms < speed)%R →
  match_rescale this (point bx by_) = point (bx / speed * ms) (by_ / speed * ms).
Proof.
  intros speed Hs. unfold match_rescale, point. cbn [x y].
  rewrite speed_Fin, this_maxSpeed. fold speed. unfold gt.
  rewrite lt_Fin_true by lra. rewrite !div_Fin by lra. reflexivity.
Qed.

Lemma match_rescale_below (bx by_ : R) :
  let speed := R_sqrt.sqrt (bx * bx + by_ * by_) in
  (0 < speed < ms * (5 / 10))%R →
  match_rescale this (point bx by_)
  = point (bx / speed * ms * (75 / 100)) (by_ / speed * ms * (75 / 100)).
Proof.
  intros speed Hs. unfold match_rescale, point. cbn [x y].
  rewrite speed_Fin, this_maxSpeed. fold speed. unfold gt.
  rewrite lt_Fin_false by lra. cbn [mul]. rewrite lt_Fin_true by lra.
  rewrite !div_Fin by lra. reflexivity.
Qed.

Lemma match_rescale_between (bx by_ : R) :
  let speed := R_sqrt.sqrt (bx * bx + by_ * by_) in
  (ms * (5 / 10) <= speed <= ms)%R →
  match_rescale this (point bx by_) = point bx by_.
Proof.
  intros speed Hs. unfold match_rescale, point. cbn [x y].
  rewrite speed_Fin, this_maxSpeed. fold speed. unfold gt.
  rewrite lt_Fin_false by lra. cbn [mul]. rewrite lt_Fin_false by lra.
  reflexivity.
Qed.

(** At speed zero the floor applies and divides zero by zero. *)
Lemma match_rescale_zero :
  (0 < ms)%R → match_rescale this (point 0 0) = {| x := NaN; y := NaN |}.
Proof.
  intros Hms. unfold match_rescale, point. cbn [x y].
  rewrite speed_Fin, this_maxSpeed.
  replace (0 * 0 + 0 * 0)%R with 0%R by lra. rewrite sqrt_0. unfold gt.
  rewrite lt_Fin_false by lra. cbn [mul]. rewrite lt_Fin_true by lra.
  rewrite div_0_0. reflexivity.
Qed.

End AlignmentFacts.

(** A velocity rescaled to the length [target] has this magnitude. *)
Lemma magnitude_rescaled (bx by_ target : R) :
  let speed := R_sqrt.sqrt (bx * bx + by_ * by_) in
  (0 < speed)%R → (0 <= target)%R →
  magnitude (point (bx / speed * target) (by_ / speed * target)) = Fin target.
Proof.
  intros speed Hs Ht. unfold magnitude, point. cbn [x y Num.hypot]. f_equal.
  assert (speed * speed = bx * bx + by_ * by_)%R as Hsq
    by (apply sqrt_sqrt, sum_squares_nonneg).
  apply NumFacts.sqrt_of_square; [done|].
  replace (bx / speed * target * (bx / speed * target)
           + by_ / speed * target * (by_ / speed * target))%R
    with ((bx * bx + by_ * by_) / (speed * speed) * (target * target))%R
    by (field; lra).
  rewrite <- Hsq. field. lra.
Qed.

(** Evaluation of the rules on finite values: the tests on distances are
    decided by comparing squares, the quotients have a divisor that is
    not zero. *)
Ltac near :=
  rewrite distance_lt_true by (simpl; lra).
Ltac far :=
  rewrite distance_lt_false by (simpl; lra).
Ltac quotients :=
  unfold Num.of_nat;
  repeat (rewrite NumFacts.div_Fin by (simpl; lra);
          cbn [Num.add Num.sub Num.neg Num.mul]).
Ltac same_reals :=
  unfold point, vadd, vsub, vscale;
  cbn [x y Num.add Num.sub Num.neg Num.mul];
  repeat match goal with
         | |- {| x := _; y := _ |} = {| x := _; y := _ |} => f_equal
         | |- Fin _ = Fin _ => f_equal
         | |- Some _ = Some _ => f_equal
         end;
  simpl; first [lra | field; lra].

Lemma neighbors_flock_at_rest :
  neighbors default_modifier (boid_at 0 0 0 0) flock_at_rest = flock_at_rest.
Proof.
  unfold neighbors, flock_at_rest. rewrite filter_cons.
  cbn [position boid_at visualRange default_modifier]. near.
  by rewrite decide_True.
Qed.

Lemma alignment_flock_at_rest :
  alignment_spec default_modifier (boid_at 0 0 0 0) flock_at_rest = point 0 0.
Proof.
  unfold alignment_spec. rewrite neighbors_flock_at_rest.
  unfold average_velocity, flock_at_rest, vadd, vsub, vscale.
  cbn [foldr length velocity boid_at point x y vadd vzero Num.add Num.of_nat
       matchingFactor default_modifier].
  quotients. same_reals.
Qed.

(** C4. The rescaling of [matchVelocity] has no guard for the speed zero:
    for a single boid at rest the speed is [0], the floor applies, and
    both components of the velocity become [0 / 0 * maxSpeed * 0.75], that
    is NaN. *)
Theorem matchVelocity_zero_speed_unguarded :
  match_blend default_modifier (boid_at 0 0 0 0) flock_at_rest = point 0 0
  ∧ Num.div (Fin 0) (Fin 0) = NaN
  ∧ velocity <$> matchVelocity default_modifier flock_at_rest 0 !! 0
    = Some {| x := NaN; y := NaN |}.
Proof.
  assert (match_blend default_modifier (boid_at 0 0 0 0) flock_at_rest = point 0 0)
    as Hblend.
  { rewrite match_blend_spec; [apply alignment_flock_at_rest|].
    by rewrite neighbors_flock_at_rest. }
  split_and!; [exact Hblend|apply NumFacts.div_0_0|].
  unfold matchVelocity. cbn [lookup list_lookup flock_at_rest].
  change ([boid_at 0 0 0 0]) with flock_at_rest. rewrite Hblend.
  rewrite (match_rescale_zero default_modifier (45 / 100)) by (done || lra).
  reflexivity.
Qed.

Lemma neighbors_pair_at_rest :
  neighbors default_modifier (boid_at 0 0 0 0) pair_at_rest = pair_at_rest.
Proof.
  unfold neighbors, pair_at_rest. rewrite !filter_cons.
  cbn [position boid_at visualRange default_modifier]. do 2 near.
  by rewrite !decide_True.
Qed.

(** C5. The speed floor of [matchVelocity] misses the speed zero.  Of two
    boids at rest within sight of each other, the first has two
    neighbours and its blended velocity is zero, below half of
    [maxSpeed]; the floor divides zero by zero and the velocity after the
    rule is NaN on both axes, whose magnitude is not [0.75 * maxSpeed]. *)
Theorem matchVelocity_zero_blend_not_floored :
  neighbors default_modifier (boid_at 0 0 0 0) pair_at_rest = pair_at_rest
  ∧ alignment_spec default_modifier (boid_at 0 0 0 0) pair_at_rest = point 0 0
  ∧ velocity <$> matchVelocity default_modifier pair_at_rest 0 !! 0
    = Some {| x := NaN; y := NaN |}
  ∧ magnitude {| x := NaN; y := NaN |} ≠ Fin (75 / 100 * (45 / 100)).
Proof.
  assert (alignment_spec default_modifier (boid_at 0 0 0 0) pair_at_rest = point 0 0)
    as Hblend.
  { unfold alignment_spec. rewrite neighbors_pair_at_rest.
    unfold average_velocity, pair_at_rest, vadd, vsub, vscale.
    cbn [foldr length velocity boid_at point x y vadd vzero Num.add
         matchingFactor default_modifier].
    quotients. same_reals. }
  split_and!; [apply neighbors_pair_at_rest|exact Hblend| |done].
  unfold matchVelocity. cbn [lookup list_lookup pair_at_rest].
  change ([boid_at 0 0 0 0; boid_at 10 0 0 0]) with pair_at_rest.
  rewrite match_blend_spec by (by rewrite neighbors_pair_at_rest).
  rewrite Hblend.
  rewrite (match_rescale_zero default_modifier (45 / 100)) by (done || lra).
  reflexivity.
Qed.

(** Away from the speed zero the rule blends and rescales.  For a boid
    with a neighbour in range, [matchVelocity] first blends the velocity
    towards the neighbours' average velocity:
    [velocity += (avg - velocity) * matchingFactor].  With the blended
    velocity [(bx, by)] of speed [s] and [0 <= maxSpeed]: if [s] exceeds
    [maxSpeed] the velocity is rescaled to the magnitude [maxSpeed]; if
    [s] is below half of [maxSpeed] and not zero it is rescaled to the
    magnitude [0.75 * maxSpeed]; from half of [maxSpeed] to [maxSpeed] it
    is the blended velocity; and at [s = 0 < maxSpeed] it is NaN on both
    axes.  The position is untouched. *)
Lemma matchVelocity_blend_rescale (this : BoidsModifier) (boids : list Boid)
    (i : nat) (boid : Boid) (bx by_ ms : R) :
  boids !! i = Some boid →
  neighbors this boid boids ≠ [] →
  alignment_spec this boid boids = point bx by_ →
  maxSpeed this = Fin ms →
  (0 <= ms)%R →
  let speed := R_sqrt.sqrt (bx * bx + by_ * by_) in
  ∃ v,
    matchVelocity this boids i = <[i := set_velocity (x v) (y v) boid]> boids
    ∧ ((ms < speed)%R →
       v = point (bx / speed * ms) (by_ / speed * ms)
       ∧ magnitude v = Fin ms)
    ∧ ((0 < speed < ms * (5 / 10))%R →
       v = point (bx / speed * (ms * (75 / 100))) (by_ / speed * (ms * (75 / 100)))
       ∧ magnitude v = Fin (ms * (75 / 100)))
    ∧ ((ms * (5 / 10) <= speed <= ms)%R → v = point bx by_)
    ∧ (speed = 0%R → (0 < ms)%R → v = {| x := NaN; y := NaN |}).
Proof.
  intros Hi Hne Hblend Hms Hpos speed.
  exists (match_rescale this (point bx by_)). split.
  { unfold matchVelocity. rewrite Hi, match_blend_spec by done.
    by rewrite Hblend. }
  split_and!; intros Hs.
  - rewrite (match_rescale_above this ms Hms) by (fold speed; lra).
    split; [done|]. apply magnitude_rescaled; fold speed; lra.
  - rewrite (match_rescale_below this ms Hms) by (fold speed; lra).
    fold speed.
    assert (point (bx / speed * ms * (75 / 100)) (by_ / speed * ms * (75 / 100))
            = point (bx / speed * (ms * (75 / 100))) (by_ / speed * (ms * (75 / 100))))
      as -> by (unfold point; f_equal; f_equal; lra).
    split; [done|]. apply magnitude_rescaled; fold speed; lra.
  - by rewrite (match_rescale_between this ms Hms) by (fold speed; lra).
  - intros Hlimit.
    assert (bx * bx + by_ * by_ = 0)%R as Hsq
      by (apply sqrt_eq_0; [apply sum_squares_nonneg|done]).
    assert (bx = 0)%R as -> by nra. assert (by_ = 0)%R as -> by nra.
    by apply (match_rescale_zero this ms).
Qed.

Lemma neighbors_flock_moving :
  neighbors default_modifier (boid_at 0 0 3 4) flock_moving = flock_moving.
Proof.
  unfold neighbors, flock_moving. rewrite filter_cons.
  cbn [position boid_at visualRange default_modifier]. near.
  by rewrite decide_True.
Qed.

(** A boid alone with velocity (3, 4): its speed 5 exceeds [maxSpeed]. *)
Lemma matchVelocity_blend_rescale_witness :
  let speed := R_sqrt.sqrt (3 * 3 + 4 * 4) in
  ∃ v,
    matchVelocity default_modifier flock_moving 0
    = <[0 := set_velocity (x v) (y v) (boid_at 0 0 3 4)]> flock_moving
    ∧ ((45 / 100 < speed)%R →
       v = point (3 / speed * (45 / 100)) (4 / speed * (45 / 100))
       ∧ magnitude v = Fin (45 / 100))
    ∧ ((0 < speed < 45 / 100 * (5 / 10))%R →
       v = point (3 / speed * (45 / 100 * (75 / 100)))
                 (4 / speed * (45 / 100 * (75 / 100)))
       ∧ magnitude v = Fin (45 / 100 * (75 / 100)))
    ∧ ((45 / 100 * (5 / 10) <= speed <= 45 / 100)%R → v = point 3 4)
    ∧ (speed = 0%R → (0 < 45 / 100)%R → v = {| x := NaN; y := NaN |}).
Proof.
  apply (matchVelocity_blend_rescale default_modifier flock_moving 0
           (boid_at 0 0 3 4) 3 4 (45 / 100)).
  - reflexivity.
  - by rewrite neighbors_flock_moving.
  - unfold alignment_spec. rewrite neighbors_flock_moving.
    unfold average_velocity, flock_moving, vadd, vsub, vscale.
    cbn [foldr length velocity boid_at point x y vadd vzero Num.add
         matchingFactor default_modifier].
    quotients. same_reals.
  - reflexivity.
  - lra.
Defined.

(** ** Construction *)

(** C3, as stated, fails: options with [maxSpeed = 0], a negative factor
    and negative distances are not rejected.  The constructor completes
    normally and the modifier holds these very values. *)
Lemma constructor_malformed_counterexample :
  (∃ this,
     constructor (ArgObject malformed_options) = Normal this
     ∧ maxSpeed this = Fin 0
     ∧ reduceFactor this = Fin (-1)
     ∧ visualRange this = Fin (-55)
     ∧ minDistanceBoid this = Fin (-20))
  ∧ ∀ e, constructor (ArgObject malformed_options) ≠ Throw e.
Proof.
  split.
  - eexists. split; [reflexivity|]. by split_and!.
  - intros e. discriminate.
Qed.

(** C3, amended.  The constructor validates nothing: for every options
    object it completes normally, with a modifier that holds each given
    value as it is and the default for each absent one; without options
    it gives the defaults.  The component, which builds the modifier and
    then updates the boids frame after frame, completes normally
    too. *)
Theorem constructor_never_rejects (options : Options) :
  (∃ this,
     constructor (ArgObject options) = Normal this
     ∧ visualRange this = default (Fin 55) (opt_visualRange options)
     ∧ reduceFactor this = default (Fin (5 / 10)) (opt_reduceFactor options)
     ∧ centeringFactor this = default (Fin (5 / 100)) (opt_centeringFactor options)
     ∧ matchingFactor this = default (Fin (5 / 100)) (opt_matchingFactor options)
     ∧ maxSpeed this = default (Fin (45 / 100)) (opt_maxSpeed options)
     ∧ smoothSpeed this = default (Fin (3 / 10)) (opt_smoothSpeed options)
     ∧ acceleration this = default (Fin (35 / 1000)) (opt_acceleration options)
     ∧ minDistanceBoid this = default (Fin 20) (opt_minDistanceBoid options)
     ∧ avoidFactorBoid this = default (Fin (5 / 100)) (opt_avoidFactorBoid options)
     ∧ minDistanceMouse this = default (Fin 100) (opt_minDistanceMouse options)
     ∧ avoidFactorMouse this = default (Fin (25 / 1000)) (opt_avoidFactorMouse options))
  ∧ constructor ArgUndefined = Normal default_modifier
  ∧ ∀ innerWidth width height size pointer boids,
      ∃ boids',
        Boids innerWidth width height size options pointer boids = Normal boids'
        ∧ length boids' = length boids.
Proof.
  split_and!.
  - eexists. split; [reflexivity|].
    destruct options as [[] [] [] [] [] [] [] [] [] [] []]; by split_and!.
  - reflexivity.
  - intros innerWidth width height size pointer boids. unfold Boids.
    cbn [constructor]. eexists. split; [reflexivity|].
    unfold frames. revert boids.
    induction pointer as [|mouse pointer IH]; intros boids; [done|].
    cbn [foldl]. rewrite IH. apply update_loop_length.
Qed.

(** ** Cohesion *)

Section CohesionFacts.

Import Num NumFacts.

Variable this : BoidsModifier.
Variables a ms c : R.
Hypothesis this_acceleration : acceleration this = Fin a.
Hypothesis this_maxSpeed : maxSpeed this = Fin ms.
Hypothesis this_centeringFactor : centeringFactor this = Fin c.
Hypothesis maxSpeed_nonneg : (0 <= ms)%R.

(** A call of [normalize] with NaN alone: the second parameter is
    [undefined]. *)
Lemma normalize_not_a_number : normalize (VNumber NaN) VUndefined = vzero.
Proof. reflexivity. Qed.

Lemma normalize_undefined : normalize VUndefined VUndefined = vzero.
Proof. reflexivity. Qed.

(** The difference of two objects is NaN, so [steer] normalises nothing
    and returns the zero vector, whatever its arguments. *)
Lemma steer_zero current target :
  steer this current target = point (0 * a) (0 * a).
Proof.
  unfold steer, number_member. rewrite normalize_undefined.
  unfold applyAcceleration. rewrite this_acceleration, this_maxSpeed.
  cbn [vzero x y mul pow2 hypot]. unfold gt.
  rewrite lt_Fin_false; [done|].
  replace (0 * a * (0 * a) * (0 * a * (0 * a)) + 0 * a * (0 * a) * (0 * a * (0 * a)))%R
    with 0%R by lra.
  by rewrite sqrt_0.
Qed.

Lemma add_zero_product (v : num) : add v (mul (Fin (0 * a)) (Fin c)) = v.
Proof.
  cbn [mul]. replace (0 * a * c)%R with 0%R by lra. apply add_0_r.
Qed.

(** Hence [coherence] changes nothing at all. *)
Lemma coherence_no_effect boids i : coherence this boids i = boids.
Proof.
  unfold coherence. destruct (boids !! i) as [boid|] eqn:Hi; [|done].
  destruct (coherence_loop this boid boids) as [[centerX centerY] numNeighbors].
  case_bool_decide; [|done].
  rewrite steer_zero, this_centeringFactor. cbn [point x y].
  rewrite !add_zero_product. apply list_insert_id.
  rewrite Hi. by destruct boid as [p [vx vy] g].
Qed.

End CohesionFacts.

Lemma magnitude_Fin (a b m : R) :
  (0 <= m)%R → (a * a + b * b = m * m)%R → magnitude (point a b) = Fin m.
Proof.
  intros Hm Hsq. unfold magnitude, point. cbn [x y Num.hypot]. f_equal.
  by apply NumFacts.sqrt_of_square.
Qed.

Lemma clamp_magnitude_above (limit a b m : R) :
  (limit < m)%R → (0 < m)%R → (a * a + b * b = m * m)%R →
  clamp_magnitude (Fin limit) (point a b)
  = point (a * (1 / m) * limit) (b * (1 / m) * limit).
Proof.
  intros Hl Hm Hsq. unfold clamp_magnitude.
  rewrite (magnitude_Fin a b m) by lra. unfold Num.gt.
  rewrite NumFacts.lt_Fin_true by done.
  rewrite NumFacts.div_Fin by lra. reflexivity.
Qed.

Lemma clamp_magnitude_within (limit a b m : R) :
  (m <= limit)%R → (0 <= m)%R → (a * a + b * b = m * m)%R →
  clamp_magnitude (Fin limit) (point a b) = point a b.
Proof.
  intros Hl Hm Hsq. unfold clamp_magnitude.
  rewrite (magnitude_Fin a b m) by lra. unfold Num.gt.
  by rewrite NumFacts.lt_Fin_false.
Qed.

(** In the words of the specification the first of two boids at rest, 10
    apart, is steered towards their centroid (5, 0). *)
Lemma cohesion_spec_pair_at_rest :
  centroid_spec default_modifier (boid_at 0 0 0 0) pair_at_rest = point 5 0
  ∧ cohesion_spec default_modifier (boid_at 0 0 0 0) pair_at_rest
    = point (175 / 100000) 0.
Proof.
  assert (centroid_spec default_modifier (boid_at 0 0 0 0) pair_at_rest = point 5 0)
    as Hcentroid.
  { unfold centroid_spec. rewrite neighbors_pair_at_rest. unfold pair_at_rest.
    cbn [foldr length position boid_at point x y vadd vzero Num.add].
    quotients. same_reals. }
  split; [exact Hcentroid|].
  unfold cohesion_spec, steering_spec. rewrite Hcentroid.
  cbn [position velocity boid_at].
  change (vsub (point 5 0) (point 0 0)) with (point (5 + - 0) (0 + - 0)).
  rewrite (normalize_of_magnitude _ _ 5) by lra.
  change (vsub (point ((5 + - 0) / 5) ((0 + - 0) / 5)) (point 0 0))
    with (point ((5 + - 0) / 5 + - 0) ((0 + - 0) / 5 + - 0)).
  rewrite (normalize_of_magnitude _ _ 1) by lra.
  cbn [acceleration maxSpeed centeringFactor default_modifier].
  rewrite (clamp_magnitude_above _ _ _ 1) by lra.
  rewrite (clamp_magnitude_within _ _ _ (35 / 1000)) by lra.
  same_reals.
Qed.

(** C1. The code does not steer towards the centroid.  For the first of
    two boids at rest, 10 apart, the cohesion of the specification adds
    [(0.00175, 0)] to the velocity; [coherence] leaves the velocity (and
    the whole store) as it is, because [steer] subtracts objects and
    obtains NaN. *)
Theorem coherence_does_not_steer :
  length (neighbors default_modifier (boid_at 0 0 0 0) pair_at_rest) = 2
  ∧ cohesion_spec default_modifier (boid_at 0 0 0 0) pair_at_rest
    = point (175 / 100000) 0
  ∧ minus (VObject (point 5 0)) (VObject (point 0 0)) = NaN
  ∧ steer default_modifier (point 0 0) (point 5 0) = point (0 * (35 / 1000)) (0 * (35 / 1000))
  ∧ coherence default_modifier pair_at_rest 0 = pair_at_rest
  ∧ velocity <$> coherence default_modifier pair_at_rest 0 !! 0 = Some (point 0 0).
Proof.
  assert (coherence default_modifier pair_at_rest 0 = pair_at_rest) as Hcode.
  { apply (coherence_no_effect default_modifier (35 / 1000) (45 / 100) (5 / 100));
      (done || lra). }
  split_and!.
  - by rewrite neighbors_pair_at_rest.
  - apply cohesion_spec_pair_at_rest.
  - reflexivity.
  - apply (steer_zero default_modifier (35 / 1000) (45 / 100)); (done || lra).
  - exact Hcode.
  - by rewrite Hcode.
Qed.

(** ** Separation from the pointer *)

Section PointerFacts.

Variable this : BoidsModifier.

(** Whatever the pointer, the rule does nothing when the test on the
    distance fails. *)
Lemma avoidMouse_out_of_reach mouse boids i boid :
  boids !! i = Some boid →
  Num.lt (distance (position boid) (mouse_point mouse)) (minDistanceMouse this) = false →
  avoidMouse this mouse boids i = boids.
Proof. intros Hi Hfar. unfold avoidMouse. by rewrite Hi, Hfar. Qed.

(** A pointer at a distance of at least [minDistanceMouse] changes
    nothing. *)
Lemma avoidMouse_far (mx my px py reach : R) boids i boid :
  boids !! i = Some boid →
  position boid = point px py →
  minDistanceMouse this = Fin reach →
  (0 <= reach)%R →
  (reach * reach <= (px - mx) * (px - mx) + (py - my) * (py - my))%R →
  avoidMouse this (mouse_at mx my) boids i = boids.
Proof.
  intros Hi Hp Hreach Hpos Hfar. apply (avoidMouse_out_of_reach _ _ _ boid Hi).
  rewrite Hp, Hreach. by apply distance_lt_false.
Qed.

(** The pointer that was never moved is the pointer at the corner
    (0, 0): [null] converts to [0]. *)
Lemma avoidMouse_unset boids i :
  avoidMouse this mouse_unset boids i = avoidMouse this (mouse_at 0 0) boids i.
Proof. reflexivity. Qed.

End PointerFacts.

(** C2. With the pointer unset the rule is not suppressed: [null] counts
    as the coordinate [0], and a boid within [minDistanceMouse] of the
    corner (0, 0) is pushed away from it.  The boid at rest at (3, 4)
    leaves the rule with velocity (0.015, 0.02). *)
Theorem avoidMouse_unset_repels :
  ToNumber (mouse_x mouse_unset) = Fin 0
  ∧ ToNumber (mouse_y mouse_unset) = Fin 0
  ∧ velocity <$> flock_near_corner !! 0 = Some (point 0 0)
  ∧ velocity <$> avoidMouse default_modifier mouse_unset flock_near_corner 0 !! 0
    = Some (point (15 / 1000) (20 / 1000))
  ∧ point (15 / 1000) (20 / 1000) ≠ point 0 0.
Proof.
  split_and!; try reflexivity.
  - unfold avoidMouse, flock_near_corner. cbn [lookup list_lookup].
    cbn [position velocity boid_at minDistanceMouse avoidFactorMouse
         default_modifier].
    change (mouse_point mouse_unset) with (point 0 0). near.
    cbn [mouse_unset mouse_x mouse_y ToNumber].
    change (VNumber (Num.sub (x (point 3 4)) (Fin 0))) with (VNumber (x (point (3 + - 0) (4 + - 0)))).
    change (VNumber (Num.sub (y (point 3 4)) (Fin 0))) with (VNumber (y (point (3 + - 0) (4 + - 0)))).
    fold (vnormalize (point (3 + - 0) (4 + - 0))).
    rewrite (normalize_of_magnitude _ _ 5) by lra.
    cbn [insert list_insert lookup list_lookup fmap option_fmap option_map
         velocity set_velocity].
    same_reals.
  - intros Heq. injection Heq as Hx Hy. lra.
Qed.

(** ** Separation from the other boids *)

Section SeparationFacts.

Import Num NumFacts.

Variable this : BoidsModifier.

(** The loop of [avoidOthers] adds up the displacements from the other
    boids within [minDistanceBoid]. *)
Lemma avoid_loop_sum boid i j others moveX moveY :
  avoid_loop this boid i j others moveX moveY
  = let total := displacement_sum boid (others_within this boid i j others) in
    (add moveX (x total), add moveY (y total)).
Proof.
  revert j moveX moveY.
  induction others as [|other rest IH]; intros j moveX moveY.
  - simpl. by rewrite !add_0_r.
  - cbn [avoid_loop others_within]. rewrite bool_decide_not.
    destruct (negb (bool_decide (j = i))
              && lt (distance (position boid) (position other)) (minDistanceBoid this)).
    + rewrite IH. cbn [displacement_sum foldr vadd vsub x y].
      by rewrite <- !add_assoc.
    + apply IH.
Qed.

Lemma avoidOthers_spec boids i boid :
  boids !! i = Some boid →
  avoidOthers this boids i
  = <[i := set_velocity (x (separation_spec this boid i boids))
                        (y (separation_spec this boid i boids)) boid]> boids.
Proof.
  intros Hi. unfold avoidOthers. rewrite Hi, avoid_loop_sum. cbv zeta.
  rewrite !add_0_l. unfold separation_spec, vnormalize, vadd, vscale.
  cbn [x y]. by rewrite !mul_assoc.
Qed.

(** Two boids within [minDistanceBoid] of each other, at distance [d]:
    each is the only other boid near the other one. *)
Variables ax ay bx by_ d reach : R.
Variables a b : Boid.
Hypothesis a_position : position a = point ax ay.
Hypothesis b_position : position b = point bx by_.
Hypothesis this_minDistanceBoid : minDistanceBoid this = Fin reach.
Hypothesis positive_distance : (0 < d < reach)%R.
Hypothesis apart : ((ax - bx) * (ax - bx) + (ay - by_) * (ay - by_) = d * d)%R.

Lemma others_within_first : others_within this a 0 0 [a; b] = [b].
Proof.
  cbn [others_within]. rewrite a_position, b_position, this_minDistanceBoid.
  rewrite bool_decide_eq_false_2 by lia.
  rewrite bool_decide_eq_true_2 by lia.
  rewrite (distance_lt_true ax ay bx by_) by nra. reflexivity.
Qed.

Lemma others_within_second : others_within this b 1 0 [a; b] = [a].
Proof.
  cbn [others_within]. rewrite a_position, b_position, this_minDistanceBoid.
  rewrite bool_decide_eq_true_2 by lia.
  rewrite (bool_decide_eq_false_2 (1 ≠ 1)) by lia.
  rewrite (distance_lt_true bx by_ ax ay) by nra. reflexivity.
Qed.

Lemma push_first :
  vnormalize (displacement_sum a [b]) = point ((ax - bx) / d) ((ay - by_) / d).
Proof.
  unfold displacement_sum. cbn [foldr]. rewrite a_position, b_position.
  change (vadd (vsub (point ax ay) (point bx by_)) vzero)
    with (point (ax + - bx + 0) (ay + - by_ + 0)).
  rewrite (normalize_of_magnitude _ _ d) by nra.
  unfold point. f_equal; f_equal; f_equal; lra.
Qed.

Lemma push_second :
  vnormalize (displacement_sum b [a]) = point ((bx - ax) / d) ((by_ - ay) / d).
Proof.
  unfold displacement_sum. cbn [foldr]. rewrite a_position, b_position.
  change (vadd (vsub (point bx by_) (point ax ay)) vzero)
    with (point (bx + - ax + 0) (by_ + - ay + 0)).
  rewrite (normalize_of_magnitude _ _ d) by nra.
  unfold point. f_equal; f_equal; f_equal; lra.
Qed.

End SeparationFacts.

(** ** One frame on two boids *)

(** Equality of two stores of boids with finite coordinates, component by
    component. *)
Ltac same_store :=
  unfold boid_at, point, set_velocity, set_position, vadd, vsub, vscale;
  cbn [position velocity angle x y Num.add Num.sub Num.neg Num.mul];
  repeat match goal with
         | |- _ :: _ = _ :: _ => f_equal
         | |- Build_Boid _ _ _ = Build_Boid _ _ _ => f_equal
         | |- {| x := _; y := _ |} = {| x := _; y := _ |} => f_equal
         | |- Fin _ = Fin _ => f_equal
         end;
  try reflexivity; simpl; first [lra | field; lra].

Section RescaleFacts.

Import Num NumFacts.

Variable this : BoidsModifier.
Variables ms bx by_ s : R.
Hypothesis this_maxSpeed : maxSpeed this = Fin ms.
Hypothesis speed : (bx * bx + by_ * by_ = s * s)%R.

(** The speed limits on a velocity of known speed [s]. *)
Lemma match_rescale_capped :
  (0 <= ms < s)%R →
  match_rescale this (point bx by_) = point (bx / s * ms) (by_ / s * ms).
Proof.
  intros Hs.
  assert (R_sqrt.sqrt (bx * bx + by_ * by_) = s) as Hsqrt
    by (apply sqrt_of_square; lra).
  rewrite (match_rescale_above this ms this_maxSpeed) by (rewrite Hsqrt; lra).
  by rewrite Hsqrt.
Qed.

Lemma match_rescale_floored :
  (0 < s < ms * (5 / 10))%R →
  match_rescale this (point bx by_)
  = point (bx / s * ms * (75 / 100)) (by_ / s * ms * (75 / 100)).
Proof.
  intros Hs.
  assert (R_sqrt.sqrt (bx * bx + by_ * by_) = s) as Hsqrt
    by (apply sqrt_of_square; lra).
  rewrite (match_rescale_below this ms this_maxSpeed) by (rewrite Hsqrt; lra).
  by rewrite Hsqrt.
Qed.

End RescaleFacts.

Section WrapStore.

Variables width height size : num.

(** The wrap changes no velocity. *)
Lemma wrap_velocities boids i :
  velocity <$> wrap width height size boids i = velocity <$> boids.
Proof.
  unfold wrap. destruct (boids !! i) as [boid|] eqn:Hi; [|done].
  rewrite list_fmap_insert. apply list_insert_id.
  by rewrite list_lookup_fmap, Hi.
Qed.

End WrapStore.

(** A boid inside the band of the canvas is left where it is. *)
Lemma wrap_inside (width height size px py : R) :
  (- size <= px <= width + size)%R →
  (- size <= py <= height + size)%R →
  wrap_coordinate (Fin size) (Fin width) (Fin px) = Fin px
  ∧ wrap_coordinate (Fin size) (Fin height) (Fin py) = Fin py.
Proof.
  intros Hx Hy.
  split; apply wrap_coordinate_inside; apply NumFacts.lt_Fin_false; simpl; lra.
Qed.

Lemma wrap_first_inside (width height size px py vx vy : R) (other : Boid) :
  (- size <= px <= width + size)%R →
  (- size <= py <= height + size)%R →
  wrap (Fin width) (Fin height) (Fin size) [boid_at px py vx vy; other] 0
  = [boid_at px py vx vy; other].
Proof.
  intros Hx Hy. unfold wrap. cbn [lookup list_lookup position boid_at point x y].
  destruct (wrap_inside width height size px py Hx Hy) as [-> ->]. reflexivity.
Qed.

Lemma wrap_second_inside (width height size px py vx vy : R) (other : Boid) :
  (- size <= px <= width + size)%R →
  (- size <= py <= height + size)%R →
  wrap (Fin width) (Fin height) (Fin size) [other; boid_at px py vx vy] 1
  = [other; boid_at px py vx vy].
Proof.
  intros Hx Hy. unfold wrap. cbn [lookup list_lookup position boid_at point x y].
  destruct (wrap_inside width height size px py Hx Hy) as [-> ->]. reflexivity.
Qed.

(** The rules on a store of two boids, under the default options. *)
Section PairFacts.

Import Num NumFacts.

#[local] Abbreviation this := default_modifier.

Variables ax ay bx by_ vx vy wx wy : R.

#[local] Abbreviation boid_a := (boid_at ax ay vx vy).
#[local] Abbreviation boid_b := (boid_at bx by_ wx wy).

Lemma integrate_first other :
  integrate [boid_a; other] 0 = [boid_at (ax + vx) (ay + vy) vx vy; other].
Proof. reflexivity. Qed.

Lemma integrate_second other :
  integrate [other; boid_b] 1 = [other; boid_at (bx + wx) (by_ + wy) wx wy].
Proof. reflexivity. Qed.

Lemma coherence_default boids i : coherence this boids i = boids.
Proof.
  apply (coherence_no_effect this (35 / 1000) (45 / 100) (5 / 100));
    (done || lra).
Qed.

Lemma avoidMouse_out_of_reach_first mouse other :
  lt (distance (point ax ay) (mouse_point mouse)) (Fin 100) = false →
  avoidMouse this mouse [boid_a; other] 0 = [boid_a; other].
Proof. intros Hfar. by apply (avoidMouse_out_of_reach this mouse _ 0 boid_a). Qed.

Lemma avoidMouse_out_of_reach_second mouse other :
  lt (distance (point bx by_) (mouse_point mouse)) (Fin 100) = false →
  avoidMouse this mouse [other; boid_b] 1 = [other; boid_b].
Proof. intros Hfar. by apply (avoidMouse_out_of_reach this mouse _ 1 boid_b). Qed.

(** The two boids are at distance [d], within [minDistanceBoid]. *)
Variable d : R.
Hypothesis close : (0 < d < 20)%R.
Hypothesis apart : ((ax - bx) * (ax - bx) + (ay - by_) * (ay - by_) = d * d)%R.

Lemma avoidOthers_first :
  avoidOthers this [boid_a; boid_b] 0
  = [boid_at ax ay (vx + (ax - bx) / d * (25 / 1000)) (vy + (ay - by_) / d * (25 / 1000));
     boid_b].
Proof.
  rewrite (avoidOthers_spec this _ 0 boid_a) by done.
  unfold separation_spec.
  rewrite (others_within_first this ax ay bx by_ d 20) by (done || lra).
  rewrite (push_first ax ay bx by_ d 20) by (done || lra).
  cbn [insert list_insert avoidFactorBoid reduceFactor default_modifier mul].
  same_store.
Qed.

Lemma avoidOthers_second :
  avoidOthers this [boid_a; boid_b] 1
  = [boid_a;
     boid_at bx by_ (wx + (bx - ax) / d * (25 / 1000)) (wy + (by_ - ay) / d * (25 / 1000))].
Proof.
  rewrite (avoidOthers_spec this _ 1 boid_b) by done.
  unfold separation_spec.
  rewrite (others_within_second this ax ay bx by_ d 20) by (done || lra).
  rewrite (push_second ax ay bx by_ d 20) by (done || lra).
  cbn [insert list_insert avoidFactorBoid reduceFactor default_modifier mul].
  same_store.
Qed.

(** Each of the two sees both. *)
Lemma neighbors_first : neighbors this boid_a [boid_a; boid_b] = [boid_a; boid_b].
Proof.
  unfold neighbors. rewrite !filter_cons.
  cbn [position boid_at visualRange default_modifier].
  rewrite !distance_lt_true by nra. by rewrite !decide_True.
Qed.

Lemma neighbors_second : neighbors this boid_b [boid_a; boid_b] = [boid_a; boid_b].
Proof.
  unfold neighbors. rewrite !filter_cons.
  cbn [position boid_at visualRange default_modifier].
  rewrite !distance_lt_true by nra. by rewrite !decide_True.
Qed.

Lemma average_velocity_pair :
  average_velocity [boid_a; boid_b] = point ((vx + wx) / 2) ((vy + wy) / 2).
Proof.
  unfold average_velocity.
  cbn [foldr length velocity boid_at point x y vadd vzero add].
  quotients. same_reals.
Qed.

Lemma matchVelocity_first cx cy :
  match_rescale this
    (point (vx + ((vx + wx) / 2 - vx) * (5 / 100))
           (vy + ((vy + wy) / 2 - vy) * (5 / 100)))
  = point cx cy →
  matchVelocity this [boid_a; boid_b] 0 = [boid_at ax ay cx cy; boid_b].
Proof.
  intros Hrescale. unfold matchVelocity. cbn [lookup list_lookup].
  rewrite match_blend_spec by (by rewrite neighbors_first).
  unfold alignment_spec. rewrite neighbors_first, average_velocity_pair.
  replace (vadd (velocity boid_a)
             (vscale (vsub (point ((vx + wx) / 2) ((vy + wy) / 2)) (velocity boid_a))
                (matchingFactor this)))
    with (point (vx + ((vx + wx) / 2 - vx) * (5 / 100))
                (vy + ((vy + wy) / 2 - vy) * (5 / 100)))
    by (cbn [velocity boid_at matchingFactor default_modifier]; same_reals).
  rewrite Hrescale. reflexivity.
Qed.

Lemma matchVelocity_second cx cy :
  match_rescale this
    (point (wx + ((vx + wx) / 2 - wx) * (5 / 100))
           (wy + ((vy + wy) / 2 - wy) * (5 / 100)))
  = point cx cy →
  matchVelocity this [boid_a; boid_b] 1 = [boid_a; boid_at bx by_ cx cy].
Proof.
  intros Hrescale. unfold matchVelocity. cbn [lookup list_lookup].
  rewrite match_blend_spec by (by rewrite neighbors_second).
  unfold alignment_spec. rewrite neighbors_second, average_velocity_pair.
  replace (vadd (velocity boid_b)
             (vscale (vsub (point ((vx + wx) / 2) ((vy + wy) / 2)) (velocity boid_b))
                (matchingFactor this)))
    with (point (wx + ((vx + wx) / 2 - wx) * (5 / 100))
                (wy + ((vy + wy) / 2 - wy) * (5 / 100)))
    by (cbn [velocity boid_at matchingFactor default_modifier]; same_reals).
  rewrite Hrescale. reflexivity.
Qed.

End PairFacts.

(** Two boids at rest, 5 apart, the first inside the band of the canvas
    and both out of the pointer's reach, under the default options. *)
Section PairAtRest.

Import Num NumFacts.

#[local] Abbreviation this := default_modifier.

Variables ax ay bx by_ width height size : R.
Variable mouse : Mouse.
Hypothesis apart : ((ax - bx) * (ax - bx) + (ay - by_) * (ay - by_) = 5 * 5)%R.
Hypothesis inside_x : (- size <= ax <= width + size)%R.
Hypothesis inside_y : (- size <= ay <= height + size)%R.
Hypothesis first_out_of_reach :
  lt (distance (point ax ay) (mouse_point mouse)) (Fin 100) = false.
Hypothesis second_out_of_reach :
  lt (distance (point bx by_) (mouse_point mouse)) (Fin 100) = false.

#[local] Abbreviation turn := (update_boid this mouse (Fin width) (Fin height) (Fin size)).
#[local] Abbreviation first_after :=
  (boid_at ax ay (3375 / 10000 * ((ax - bx) / 5)) (3375 / 10000 * ((ay - by_) / 5))).
#[local] Abbreviation second_after :=
  (boid_at bx by_ (3375 / 10000 * ((bx - ax) / 5)) (3375 / 10000 * ((by_ - ay) / 5))).

Lemma turn_first_at_rest :
  turn [boid_at ax ay 0 0; boid_at bx by_ 0 0] 0 = [first_after; boid_at bx by_ 0 0].
Proof.
  unfold update_boid, applyBehaviors. rewrite integrate_first.
  replace [boid_at (ax + 0) (ay + 0) 0 0; boid_at bx by_ 0 0]
    with [boid_at ax ay 0 0; boid_at bx by_ 0 0] by same_store.
  rewrite coherence_default.
  rewrite (avoidOthers_first ax ay bx by_ 0 0 0 0 5) by (done || lra).
  rewrite avoidMouse_out_of_reach_first by done.
  rewrite (matchVelocity_first ax ay bx by_ _ _ 0 0 5 ltac:(lra) apart
             (3375 / 10000 * ((ax - bx) / 5)) (3375 / 10000 * ((ay - by_) / 5))).
  - by apply wrap_first_inside.
  - rewrite (match_rescale_floored this (45 / 100) _ _ (24375 / 1000000));
      [same_reals|done|nra|lra].
Qed.

Lemma turn_second_at_rest :
  velocity <$> turn [first_after; boid_at bx by_ 0 0] 1
  = velocity <$> [first_after; second_after].
Proof.
  unfold update_boid, applyBehaviors. rewrite wrap_velocities, integrate_second.
  replace [first_after; boid_at (bx + 0) (by_ + 0) 0 0]
    with [first_after; boid_at bx by_ 0 0] by same_store.
  rewrite coherence_default.
  rewrite (avoidOthers_second ax ay bx by_ _ _ 0 0 5) by (done || lra).
  rewrite avoidMouse_out_of_reach_second by done.
  rewrite (matchVelocity_second ax ay bx by_ _ _ _ _ 5 ltac:(lra) apart
             (3375 / 10000 * ((bx - ax) / 5)) (3375 / 10000 * ((by_ - ay) / 5)));
    [done|].
  rewrite (match_rescale_floored this (45 / 100) _ _ (159375 / 10000000));
    [same_reals|done|nra|lra].
Qed.

Lemma frame_at_rest :
  velocity <$> updateBoids this mouse (Fin width) (Fin height) (Fin size)
                 [boid_at ax ay 0 0; boid_at bx by_ 0 0]
  = [point (3375 / 10000 * ((ax - bx) / 5)) (3375 / 10000 * ((ay - by_) / 5));
     point (3375 / 10000 * ((bx - ax) / 5)) (3375 / 10000 * ((by_ - ay) / 5))].
Proof.
  unfold updateBoids. cbn [length update_loop].
  rewrite turn_first_at_rest, turn_second_at_rest. reflexivity.
Qed.

End PairAtRest.
(** Two boids at distance 5 with [minDistanceBoid = 20] and positive
    factors: the rule gives them pushes of opposite sign along the axis
    from the second to the first. *)
Lemma avoidOthers_pair_apart (this : BoidsModifier) (a b : Boid)
    (ax ay bx by_ f r : R) :
  position a = point ax ay →
  position b = point bx by_ →
  ((ax - bx) * (ax - bx) + (ay - by_) * (ay - by_) = 5 * 5)%R →
  minDistanceBoid this = Fin 20 →
  avoidFactorBoid this = Fin f →
  reduceFactor this = Fin r →
  (0 < f * r)%R →
  ∃ push_a push_b : Vec,
    velocity <$> avoidOthers this [a; b] 0 !! 0 = Some (vadd (velocity a) push_a)
    ∧ velocity <$> avoidOthers this [a; b] 1 !! 1 = Some (vadd (velocity b) push_b)
    ∧ Num.lt (Fin 0) (dot push_a (vsub (position a) (position b))) = true
    ∧ Num.lt (dot push_b (vsub (position a) (position b))) (Fin 0) = true.
Proof.
  intros Ha Hb Hd Hreach Hf Hr Hfr.
  exists (point ((ax - bx) / 5 * (f * r)) ((ay - by_) / 5 * (f * r))),
         (point ((bx - ax) / 5 * (f * r)) ((by_ - ay) / 5 * (f * r))).
  split_and!.
  - rewrite (avoidOthers_spec this _ 0 a) by done. unfold separation_spec.
    rewrite (others_within_first this ax ay bx by_ 5 20) by (done || lra).
    rewrite (push_first ax ay bx by_ 5 20) by (done || lra).
    by rewrite Hf, Hr.
  - rewrite (avoidOthers_spec this _ 1 b) by done. unfold separation_spec.
    rewrite (others_within_second this ax ay bx by_ 5 20) by (done || lra).
    rewrite (push_second ax ay bx by_ 5 20) by (done || lra).
    by rewrite Hf, Hr.
  - rewrite Ha, Hb. unfold dot, vsub, point. cbn [x y Num.add Num.sub Num.neg Num.mul].
    apply NumFacts.lt_Fin_true.
    replace ((ax - bx) / 5 * (f * r) * (ax + - bx)
             + (ay - by_) / 5 * (f * r) * (ay + - by_))%R
      with (((ax - bx) * (ax - bx) + (ay - by_) * (ay - by_)) / 5 * (f * r))%R
      by (field; lra).
    rewrite Hd. lra.
  - rewrite Ha, Hb. unfold dot, vsub, point. cbn [x y Num.add Num.sub Num.neg Num.mul].
    apply NumFacts.lt_Fin_true.
    replace ((bx - ax) / 5 * (f * r) * (ax + - bx)
             + (by_ - ay) / 5 * (f * r) * (ay + - by_))%R
      with (- (((ax - bx) * (ax - bx) + (ay - by_) * (ay - by_)) / 5 * (f * r)))%R
      by (field; lra).
    rewrite Hd. lra.
Qed.

(** The pointer that was never moved is out of reach of a boid at least
    100 away from the corner (0, 0). *)
Lemma unset_out_of_reach (px py : R) :
  (100 * 100 <= px * px + py * py)%R →
  Num.lt (distance (point px py) (mouse_point mouse_unset)) (Fin 100) = false.
Proof.
  intros Hfar. change (mouse_point mouse_unset) with (point 0 0).
  apply distance_lt_false; lra.
Qed.

(** C6, as stated, fails for the deltas of a whole step.  Two boids 5
    apart, both moving to the right at speed 0.5, above [maxSpeed]: after
    one frame both have the velocity (0.45, 0), since alignment caps the
    speed.  Their velocity deltas are both (-0.05, 0), of the same sign
    along their displacement axis. *)
Lemma separation_step_counterexample :
  position <$> pair_moving = [point 300 400; point 305 400]
  ∧ velocity <$> pair_moving = [point (5 / 10) 0; point (5 / 10) 0]
  ∧ minDistanceBoid default_modifier = Fin 20
  ∧ velocity <$> one_frame pair_moving = [point (45 / 100) 0; point (45 / 100) 0]
  ∧ vsub (point (45 / 100) 0) (point (5 / 10) 0) = point (- (5 / 100)) 0.
Proof.
  split_and!; try reflexivity; [|same_reals].
  unfold one_frame, updateBoids, pair_moving. cbn [length update_loop].
  assert (update_boid default_modifier mouse_unset (Fin 800) (Fin 600) (Fin 8)
            [boid_at 300 400 (5 / 10) 0; boid_at 305 400 (5 / 10) 0] 0
          = [boid_at (300 + 5 / 10) (400 + 0) (45 / 100) 0; boid_at 305 400 (5 / 10) 0])
    as ->.
  { unfold update_boid, applyBehaviors.
    rewrite integrate_first, coherence_default.
    rewrite (avoidOthers_first _ _ _ _ _ _ _ _ (45 / 10)) by lra.
    rewrite avoidMouse_out_of_reach_first by (apply unset_out_of_reach; lra).
    rewrite matchVelocity_first with (d := (45 / 10)%R) (cx := (45 / 100)%R) (cy := 0%R);
      [apply wrap_first_inside; lra|lra|lra|].
    rewrite (match_rescale_capped default_modifier (45 / 100) _ _ (475625 / 1000000));
      [same_reals|done|lra|lra]. }
  unfold update_boid, applyBehaviors.
  rewrite wrap_velocities, integrate_second, coherence_default.
  rewrite (avoidOthers_second _ _ _ _ _ _ _ _ 5) by lra.
  rewrite avoidMouse_out_of_reach_second by (apply unset_out_of_reach; lra).
  rewrite matchVelocity_second with (d := 5%R) (cx := (45 / 100)%R) (cy := 0%R);
    [done|lra|lra|].
  rewrite (match_rescale_capped default_modifier (45 / 100) _ _ (523125 / 1000000));
    [same_reals|done|lra|lra].
Qed.

(** C6, amended.  [avoidOthers] adds to the velocity of its boid the
    normalised sum of the displacements [boid.position - other.position]
    over the other boids within [minDistanceBoid], scaled by
    [avoidFactorBoid * reduceFactor].  Two boids 5 apart, with
    [minDistanceBoid = 20] and positive factors, receive from the rule
    pushes of opposite sign along their displacement axis.  When the two
    start at rest, the first inside the band of the canvas and both out
    of the pointer's reach, under the default options, their velocities
    after one frame are [0.3375] times the unit displacement from the
    other one: opposite along that axis. *)
Theorem avoidOthers_separation (this : BoidsModifier) (boids : list Boid)
    (i : nat) (boid : Boid) :
  boids !! i = Some boid →
  let others := others_within this boid i 0 boids in
  let push := vnormalize (displacement_sum boid others) in
  let factor := Num.mul (avoidFactorBoid this) (reduceFactor this) in
  avoidOthers this boids i
  = <[i := set_velocity (Num.add (x (velocity boid)) (Num.mul (x push) factor))
                        (Num.add (y (velocity boid)) (Num.mul (y push) factor))
                        boid]> boids
  ∧ (∀ (a b : Boid) (ax ay bx by_ f r : R),
       position a = point ax ay →
       position b = point bx by_ →
       ((ax - bx) * (ax - bx) + (ay - by_) * (ay - by_) = 5 * 5)%R →
       minDistanceBoid this = Fin 20 →
       avoidFactorBoid this = Fin f →
       reduceFactor this = Fin r →
       (0 < f * r)%R →
       ∃ push_a push_b : Vec,
         velocity <$> avoidOthers this [a; b] 0 !! 0 = Some (vadd (velocity a) push_a)
         ∧ velocity <$> avoidOthers this [a; b] 1 !! 1 = Some (vadd (velocity b) push_b)
         ∧ Num.lt (Fin 0) (dot push_a (vsub (position a) (position b))) = true
         ∧ Num.lt (dot push_b (vsub (position a) (position b))) (Fin 0) = true)
  ∧ (∀ (ax ay bx by_ width height size : R) (mouse : Mouse),
       ((ax - bx) * (ax - bx) + (ay - by_) * (ay - by_) = 5 * 5)%R →
       (- size <= ax <= width + size)%R →
       (- size <= ay <= height + size)%R →
       Num.lt (distance (point ax ay) (mouse_point mouse)) (Fin 100) = false →
       Num.lt (distance (point bx by_) (mouse_point mouse)) (Fin 100) = false →
       velocity <$> updateBoids default_modifier mouse (Fin width) (Fin height) (Fin size)
                      [boid_at ax ay 0 0; boid_at bx by_ 0 0]
       = [point (3375 / 10000 * ((ax - bx) / 5)) (3375 / 10000 * ((ay - by_) / 5));
          point (3375 / 10000 * ((bx - ax) / 5)) (3375 / 10000 * ((by_ - ay) / 5))]).
Proof.
  intros Hi. cbv zeta. split_and!.
  - rewrite (avoidOthers_spec this boids i boid Hi). reflexivity.
  - apply avoidOthers_pair_apart.
  - apply frame_at_rest.
Qed.

(** The pair at rest at (300, 400) and (305, 400), under the default
    options and with the pointer never moved: the rule pushes the first
    boid to the left, and after the frame the first moves to the left
    and the second to the right. *)
Lemma avoidOthers_separation_witness :
  pair_close !! 0 = Some (boid_at 300 400 0 0)
  ∧ avoidOthers default_modifier pair_close 0
    = [boid_at 300 400 (- (25 / 1000)) 0; boid_at 305 400 0 0]
  ∧ velocity <$> one_frame pair_close
    = [point (- (3375 / 10000)) 0; point (3375 / 10000) 0].
Proof.
  destruct (avoidOthers_separation default_modifier pair_close 0
              (boid_at 300 400 0 0) eq_refl) as (Hrule & _ & Hframe).
  split_and!.
  - reflexivity.
  - rewrite Hrule. unfold pair_close.
    rewrite (others_within_first default_modifier 300 400 305 400 5 20) by (done || lra).
    rewrite (push_first 300 400 305 400 5 20) by (done || lra).
    cbn [insert list_insert avoidFactorBoid reduceFactor default_modifier Num.mul].
    same_store.
  - unfold one_frame, pair_close.
    rewrite (Hframe 300%R 400%R 305%R 400%R 800%R 600%R 8%R mouse_unset);
      [same_store | lra | lra | lra
      | apply unset_out_of_reach; lra | apply unset_out_of_reach; lra].
Defined.

(** * Further properties of the code *)

(** ** Distances and neighbours *)

Lemma pow2_sub_comm (a b : num) :
  Num.pow2 (Num.sub a b) = Num.pow2 (Num.sub b a).
Proof.
  destruct a, b; try reflexivity.
  unfold Num.pow2, Num.sub. cbn [Num.neg Num.add Num.mul]. f_equal. lra.
Qed.

Lemma lt_sqrt_zero (a : num) : Num.lt (Num.sqrt a) (Fin 0) = false.
Proof.
  destruct a as [r| | |]; try reflexivity.
  unfold Num.sqrt. case_decide; [reflexivity|].
  apply NumFacts.lt_Fin_false, sqrt_pos.
Qed.

(** X1. [distance] does not depend on the order of its two arguments,
    whatever their coordinates; it is never below zero; and a point with
    finite coordinates is at distance 0 of itself. *)
Theorem distance_symmetric (p q : Vec) :
  distance p q = distance q p
  ∧ Num.lt (distance p q) (Fin 0) = false
  ∧ ∀ a b : R, distance (point a b) (point a b) = Fin 0.
Proof.
  split_and!.
  - unfold distance.
    by rewrite (pow2_sub_comm (x p)), (pow2_sub_comm (y p)).
  - apply lt_sqrt_zero.
  - intros a b. rewrite distance_Fin. f_equal.
    replace ((a - a) * (a - a) + (b - b) * (b - b))%R with 0%R by lra.
    apply sqrt_0.
Qed.

Section NeighborFacts.

Import Num NumFacts.

Variable this : BoidsModifier.

(** The loop of [coherence] counts the neighbours, as the loop of
    [matchVelocity] does. *)
Lemma coherence_loop_from boid boids centerX centerY numNeighbors :
  snd (foldl
         (fun '(centerX, centerY, numNeighbors) other =>
            if lt (distance (position boid) (position other)) (visualRange this)
            then (add centerX (x (position other)), add centerY (y (position other)),
                  S numNeighbors)
            else (centerX, centerY, numNeighbors))
         (centerX, centerY, numNeighbors) boids)
  = numNeighbors + length (neighbors this boid boids).
Proof.
  revert centerX centerY numNeighbors.
  induction boids as [|other boids IH]; intros centerX centerY numNeighbors.
  - simpl. lia.
  - cbn [foldl]. unfold neighbors. rewrite filter_cons.
    destruct (lt (distance (position boid) (position other)) (visualRange this)).
    + rewrite decide_True by done. rewrite IH. cbn [length].
      fold (neighbors this boid boids). lia.
    + rewrite decide_False by done. apply IH.
Qed.

Lemma self_in_neighbors boids i boid (px py range : R) :
  boids !! i = Some boid →
  position boid = point px py →
  visualRange this = Fin range →
  (0 < range)%R →
  boid ∈ neighbors this boid boids.
Proof.
  intros Hi Hp Hrange Hpos. unfold neighbors. apply list_elem_of_filter. split.
  - rewrite Hp, Hrange. apply distance_lt_true; [done|nra].
  - by eapply list_elem_of_lookup_2.
Qed.

End NeighborFacts.

(** X2. A boid of the store with a finite position is one of its own
    neighbours when [visualRange] is positive: the loops of [coherence]
    and of [matchVelocity] count at least one neighbour, so that their
    test [numNeighbors > 0] never fails for it. *)
Theorem self_is_neighbor (this : BoidsModifier) (boids : list Boid) (i : nat)
    (boid : Boid) (px py range : R) :
  boids !! i = Some boid →
  position boid = point px py →
  visualRange this = Fin range →
  (0 < range)%R →
  boid ∈ neighbors this boid boids
  ∧ 1 ≤ snd (coherence_loop this boid boids)
  ∧ 1 ≤ snd (match_loop this boid boids).
Proof.
  intros Hi Hp Hrange Hpos.
  pose proof (self_in_neighbors this boids i boid px py range Hi Hp Hrange Hpos)
    as Hself.
  assert (1 ≤ length (neighbors this boid boids)) as Hlen.
  { destruct (neighbors this boid boids); [by apply elem_of_nil in Hself|].
    simpl. lia. }
  split_and!; [done| |].
  - unfold coherence_loop. rewrite coherence_loop_from. lia.
  - rewrite match_loop_sums. done.
Qed.

(** A boid alone at the origin sees itself. *)
Lemma self_is_neighbor_witness :
  boid_at 0 0 0 0 ∈ neighbors default_modifier (boid_at 0 0 0 0) flock_at_rest
  ∧ 1 ≤ snd (coherence_loop default_modifier (boid_at 0 0 0 0) flock_at_rest)
  ∧ 1 ≤ snd (match_loop default_modifier (boid_at 0 0 0 0) flock_at_rest).
Proof.
  apply (self_is_neighbor default_modifier flock_at_rest 0 (boid_at 0 0 0 0) 0 0 55);
    (reflexivity || lra).
Defined.

(** ** Normalisation and the limit on the acceleration *)


(** X4. [applyAcceleration] compares [Math.hypot(dx ** 2, dy ** 2)], the
    root [q] of [dx^4 + dy^4], with [maxSpeed]: up to [maxSpeed] the vector
    is returned as it is, above it the vector is multiplied by
    [maxSpeed / q].  For a vector of magnitude at most 1 the result of this
    second case has a magnitude of at least [maxSpeed]. *)
Theorem applyAcceleration_threshold (this : BoidsModifier) (dx dy ms : R) :
  maxSpeed this = Fin ms →
  (0 <= ms)%R →
  let q := R_sqrt.sqrt (dx * dx * (dx * dx) + dy * dy * (dy * dy)) in
  ((q <= ms)%R → applyAcceleration this (Fin dx) (Fin dy) = point dx dy)
  ∧ ((ms < q)%R →
     applyAcceleration this (Fin dx) (Fin dy) = point (dx / q * ms) (dy / q * ms)
     ∧ ((dx * dx + dy * dy <= 1)%R →
        ∃ m : R,
          magnitude (applyAcceleration this (Fin dx) (Fin dy)) = Fin m
          ∧ (ms <= m)%R)).
Proof.
  intros Hms Hpos q.
  assert (applyAcceleration this (Fin dx) (Fin dy)
          = if Num.lt (Fin ms) (Fin q)
            then {| x := Num.mul (Num.div (Fin dx) (Fin q)) (Fin ms);
                    y := Num.mul (Num.div (Fin dy) (Fin q)) (Fin ms) |}
            else point dx dy) as ->.
  { unfold applyAcceleration. by rewrite Hms. }
  split.
  - intros Hle. by rewrite NumFacts.lt_Fin_false.
  - intros Hlt. rewrite NumFacts.lt_Fin_true by done.
    rewrite !NumFacts.div_Fin by lra. split; [reflexivity|].
    intros Hunit.
    set (n := R_sqrt.sqrt (dx * dx + dy * dy)).
    assert (n * n = dx * dx + dy * dy)%R as Hn by (apply sqrt_sqrt; nra).
    assert (q * q = dx * dx * (dx * dx) + dy * dy * (dy * dy))%R as Hq
      by (apply sqrt_sqrt; nra).
    assert (0 <= n)%R as Hn0 by apply sqrt_pos.
    assert (q <= n)%R as Hqn by nra.
    exists (n / q * ms)%R. split.
    + change (magnitude (point (dx / q * ms) (dy / q * ms)) = Fin (n / q * ms)).
      apply magnitude_Fin.
      * apply Rmult_le_pos; [|done]. unfold Rdiv.
        apply Rmult_le_pos; [lra|]. left. apply Rinv_0_lt_compat. lra.
      * replace (dx / q * ms * (dx / q * ms) + dy / q * ms * (dy / q * ms))%R
          with ((dx * dx + dy * dy) / (q * q) * (ms * ms))%R by (field; lra).
        rewrite <- Hn. field. lra.
    + assert (1 <= n / q)%R as Hratio.
      { apply (Rmult_le_reg_r q); [lra|].
        replace (n / q * q)%R with n by (field; lra). lra. }
      nra.
Qed.

(** The vector (0.8, 0) under the default options: [q = 0.64] exceeds
    [maxSpeed = 0.45] and the result (0.5625, 0) is longer than
    [maxSpeed]. *)
Lemma applyAcceleration_threshold_witness :
  applyAcceleration default_modifier (Fin (8 / 10)) (Fin 0)
  = point (8 / 10 / (64 / 100) * (45 / 100)) (0 / (64 / 100) * (45 / 100)).
Proof.
  assert (R_sqrt.sqrt (8 / 10 * (8 / 10) * (8 / 10 * (8 / 10)) + 0 * 0 * (0 * 0))
          = (64 / 100)%R) as Hq
    by (apply NumFacts.sqrt_of_square; lra).
  destruct (applyAcceleration_threshold default_modifier (8 / 10) 0 (45 / 100))
    as [_ Habove]; [reflexivity|lra|].
  rewrite Hq in Habove. apply Habove. lra.
Defined.

(** X5. [steer] returns the zero vector whatever the two points it is
    given, and [coherence] leaves every store as it is (for a finite
    acceleration and centering factor and a maximal speed that is not
    negative): the subtraction of the point objects gives NaN, which
    [normalize] turns into the zero vector. *)
Theorem coherence_is_identity (this : BoidsModifier) (a ms c : R)
    (current target : Vec) (boids : list Boid) (i : nat) :
  acceleration this = Fin a →
  maxSpeed this = Fin ms →
  centeringFactor this = Fin c →
  (0 <= ms)%R →
  steer this current target = point 0 0
  ∧ coherence this boids i = boids.
Proof.
  intros Ha Hms Hc Hpos. split.
  - rewrite (steer_zero this a ms Ha Hms Hpos).
    unfold point. f_equal; f_equal; lra.
  - by apply (coherence_no_effect this a ms c).
Qed.

(** The default options, on two boids in sight of each other. *)
Lemma coherence_is_identity_witness :
  steer default_modifier (point 0 0) (point 5 0) = point 0 0
  ∧ coherence default_modifier pair_at_rest 1 = pair_at_rest.
Proof.
  apply (coherence_is_identity default_modifier (35 / 1000) (45 / 100) (5 / 100));
    (reflexivity || lra).
Defined.

(** ** The size of the pushes *)

Section PushFacts.

Import Num NumFacts.

Variable this : BoidsModifier.




End PushFacts.





(** ** The speed after alignment *)



(** ** The band of the canvas *)

(** X9. After [updateBoids], a boid that had a finite position and
    velocity lies in the band of the canvas: each coordinate is between
    [-size] and the bound plus [size] (the band is not empty); and the
    wrap of a coordinate is not changed by a second wrap. *)
Theorem updateBoids_in_band (this : BoidsModifier) (mouse : Mouse)
    (width height size px py vx vy : R) (boids : list Boid) (i : nat) (boid : Boid) :
  boids !! i = Some boid →
  position boid = point px py →
  velocity boid = point vx vy →
  (- size <= width + size)%R →
  (- size <= height + size)%R →
  (∃ (boid' : Boid) (qx qy : R),
     updateBoids this mouse (Fin width) (Fin height) (Fin size) boids !! i = Some boid'
     ∧ position boid' = point qx qy
     ∧ (- size <= qx <= width + size)%R
     ∧ (- size <= qy <= height + size)%R)
  ∧ ∀ c : R,
      wrap_coordinate (Fin size) (Fin width)
        (wrap_coordinate (Fin size) (Fin width) (Fin c))
      = wrap_coordinate (Fin size) (Fin width) (Fin c).
Proof.
  intros Hi Hp Hv Hw Hh.
  assert (∀ bound c : R,
            (- size <= bound + size)%R →
            ∃ q : R, wrap_coordinate (Fin size) (Fin bound) (Fin c) = Fin q
                     ∧ (- size <= q <= bound + size)%R) as Hband.
  { intros bound c Hb.
    destruct (wrap_coordinate_Fin size bound c Hb) as (Habove & Hbelow & Hinside).
    destruct (Rlt_le_dec (bound + size) c) as [H1|H1].
    - exists (- size)%R. split; [by apply Habove|lra].
    - destruct (Rlt_le_dec c (- size)) as [H2|H2].
      + exists (bound + size)%R. split; [by apply Hbelow|lra].
      + exists c. split; [apply Hinside|]; lra. }
  split.
  - destruct (update_loop_position this mouse (Fin width) (Fin height) (Fin size)
                (length boids) 0 boids i boid Hi) as (boid' & Hlook & Hpos).
    { split; [lia|]. simpl. by eapply lookup_lt_Some. }
    destruct (Hband width (px + vx)%R Hw) as (qx & Hqx & Hxband).
    destruct (Hband height (py + vy)%R Hh) as (qy & Hqy & Hyband).
    exists boid', qx, qy. split; [exact Hlook|]. split; [|done].
    rewrite Hpos. unfold stepped_position. rewrite Hp, Hv. cbn [point x y Num.add].
    by rewrite Hqx, Hqy.
  - intros c. destruct (Hband width c Hw) as (q & -> & Hq).
    destruct (wrap_coordinate_Fin size width q Hw) as (_ & _ & Hinside).
    by apply Hinside.
Qed.

(** The boid that leaves the canvas of 800 by 600 on the right. *)
Lemma updateBoids_in_band_witness :
  ∃ (boid' : Boid) (qx qy : R),
    one_frame flock_leaving !! 0 = Some boid'
    ∧ position boid' = point qx qy
    ∧ (- 8 <= qx <= 800 + 8)%R
    ∧ (- 8 <= qy <= 600 + 8)%R.
Proof.
  apply (updateBoids_in_band default_modifier mouse_unset 800 600 8 805 300 5 0
           flock_leaving 0 (boid_at 805 300 5 0)); (reflexivity || lra).
Defined.

(** ** The options of a narrow window *)

(** X10. The modifier that the component builds from [options] is the one
    the constructor builds from them, but for the maximal speed: in a
    window narrower than 768 it is 0.3 whatever the options say, and
    otherwise the one of the options (0.45 when they give none). *)
Theorem mobileOptions_maxSpeed (innerWidth : num) (options : Options) :
  ∃ narrow wide : BoidsModifier,
    constructor (ArgObject (mobileOptions innerWidth options)) = Normal narrow
    ∧ constructor (ArgObject options) = Normal wide
    ∧ maxSpeed narrow
      = (if Num.lt innerWidth (Fin 768) then Fin (3 / 10) else maxSpeed wide)
    ∧ maxSpeed wide = default (Fin (45 / 100)) (opt_maxSpeed options)
    ∧ visualRange narrow = visualRange wide
    ∧ reduceFactor narrow = reduceFactor wide
    ∧ centeringFactor narrow = centeringFactor wide
    ∧ matchingFactor narrow = matchingFactor wide
    ∧ smoothSpeed narrow = smoothSpeed wide
    ∧ acceleration narrow = acceleration wide
    ∧ minDistanceBoid narrow = minDistanceBoid wide
    ∧ avoidFactorBoid narrow = avoidFactorBoid wide
    ∧ minDistanceMouse narrow = minDistanceMouse wide
    ∧ avoidFactorMouse narrow = avoidFactorMouse wide.
Proof.
  eexists _, _. split; [reflexivity|]. split; [reflexivity|].
  cbn [maxSpeed visualRange reduceFactor centeringFactor matchingFactor smoothSpeed
       acceleration minDistanceBoid avoidFactorBoid minDistanceMouse avoidFactorMouse
       mobileOptions opt_maxSpeed opt_visualRange opt_reduceFactor
       opt_centeringFactor opt_matchingFactor opt_smoothSpeed opt_acceleration
       opt_minDistanceBoid opt_avoidFactorBoid opt_minDistanceMouse
       opt_avoidFactorMouse].
  split_and!; try reflexivity.
  by destruct (Num.lt innerWidth (Fin 768)).
Qed.

(** ** The creation of a boid *)

(** X11. With results of [Math.random()] in the interval from 0 to 1 and a
    canvas of finite size, [createBoid] gives a boid inside the canvas
    (strictly inside on the right and at the bottom when the canvas is not
    empty), with velocity components from -1 (included) to 1 (excluded)
    and an angle from 0 to 2. *)
Theorem createBoid_ranges (width height : R) (random : Draws) :
  random_draws random →
  (0 <= width)%R →
  (0 <= height)%R →
  ∃ px py vx vy a : R,
    createBoid (Fin width) (Fin height) random
    = {| position := point px py; velocity := point vx vy; angle := Fin a |}
    ∧ (0 <= px <= width)%R ∧ ((0 < width)%R → (px < width)%R)
    ∧ (0 <= py <= height)%R ∧ ((0 < height)%R → (py < height)%R)
    ∧ (-1 <= vx < 1)%R ∧ (-1 <= vy < 1)%R
    ∧ (0 <= a < 2)%R.
Proof.
  intros (Hpx & Hpy & Hvx & Hvy & Ha) Hw Hh. unfold random_result in *.
  eexists _, _, _, _, _. split; [reflexivity|]. cbn beta.
  split_and!; try intros ?; nra.
Qed.

Lemma createBoid_ranges_witness :
  ∃ px py vx vy a : R,
    createBoid (Fin 800) (Fin 600) some_draws
    = {| position := point px py; velocity := point vx vy; angle := Fin a |}
    ∧ (0 <= px <= 800)%R ∧ ((0 < 800)%R → (px < 800)%R)
    ∧ (0 <= py <= 600)%R ∧ ((0 < 600)%R → (py < 600)%R)
    ∧ (-1 <= vx < 1)%R ∧ (-1 <= vy < 1)%R
    ∧ (0 <= a < 2)%R.
Proof.
  apply (createBoid_ranges 800 600 some_draws); [|lra|lra].
  unfold random_draws, random_result, some_draws. simpl. split_and!; lra.
Defined.

(** ** The triangle of a boid *)

Section TriangleFacts.

Import Num NumFacts.

Lemma third_of_turn_Fin : third_of_turn = Fin (2 * (PI / 3)).
Proof.
  unfold third_of_turn, pi. cbn [mul]. rewrite div_Fin by lra. f_equal. lra.
Qed.

Lemma vertex_Fin (size px py direction : R) (boid : Boid) :
  position boid = point px py →
  vertex (Fin size) boid (Fin direction)
  = point (px + size * Rtrigo_def.cos direction) (py + size * Rtrigo_def.sin direction).
Proof. intros Hp. unfold vertex. by rewrite Hp. Qed.

Lemma unit_circle (direction : R) :
  (Rtrigo_def.cos direction * Rtrigo_def.cos direction
   + Rtrigo_def.sin direction * Rtrigo_def.sin direction = 1)%R.
Proof.
  pose proof (sin2_cos2 direction) as H. unfold Rsqr in H. lra.
Qed.

(** The three directions of the vertices add up to nothing. *)
Lemma three_directions (direction : R) :
  (Rtrigo_def.cos direction + Rtrigo_def.cos (direction + 2 * (PI / 3))
   + Rtrigo_def.cos (direction + - (2 * (PI / 3))) = 0)%R
  ∧ (Rtrigo_def.sin direction + Rtrigo_def.sin (direction + 2 * (PI / 3))
     + Rtrigo_def.sin (direction + - (2 * (PI / 3))) = 0)%R.
Proof.
  rewrite !cos_plus, !sin_plus, cos_neg, sin_neg, cos_2PI3. split; lra.
Qed.

End TriangleFacts.

(** X12. For a boid with a finite position and velocity, [drawBoid] stores
    a finite angle and fills a triangle whose three vertices are at
    distance [size] of the position of the boid and whose centroid is that
    position; neither the position nor the velocity changes. *)
Theorem drawBoid_triangle (size px py vx vy : R) (boid : Boid) :
  position boid = point px py →
  velocity boid = point vx vy →
  ∃ direction x0 y0 x1 y1 x2 y2 : R,
    drawBoid (Fin size) boid
    = (set_angle (Fin direction) boid, [point x0 y0; point x1 y1; point x2 y2])
    ∧ ((x0 - px) * (x0 - px) + (y0 - py) * (y0 - py) = size * size)%R
    ∧ ((x1 - px) * (x1 - px) + (y1 - py) * (y1 - py) = size * size)%R
    ∧ ((x2 - px) * (x2 - px) + (y2 - py) * (y2 - py) = size * size)%R
    ∧ (x0 + x1 + x2 = 3 * px)%R
    ∧ (y0 + y1 + y2 = 3 * py)%R.
Proof.
  intros Hp Hv.
  set (direction := Num.angle_of vy vx).
  assert (drawBoid (Fin size) boid
          = (set_angle (Fin direction) boid,
             [point (px + size * cos direction) (py + size * sin direction);
              point (px + size * cos (direction + 2 * (PI / 3)))
                    (py + size * sin (direction + 2 * (PI / 3)));
              point (px + size * cos (direction + - (2 * (PI / 3))))
                    (py + size * sin (direction + - (2 * (PI / 3))))])) as Hdraw.
  { unfold drawBoid. rewrite Hv. cbn [point x y Num.atan2]. fold direction.
    cbn [angle set_angle]. rewrite third_of_turn_Fin.
    cbn [Num.add Num.sub Num.neg].
    by rewrite !(vertex_Fin size px py) by (by rewrite <- Hp). }
  eexists direction, _, _, _, _, _, _. split; [exact Hdraw|].
  pose proof (unit_circle direction) as H0.
  pose proof (unit_circle (direction + 2 * (PI / 3))) as H1.
  pose proof (unit_circle (direction + - (2 * (PI / 3)))) as H2.
  destruct (three_directions direction) as [Hc Hs].
  split_and!; nra.
Qed.

(** A boid at (3, 4), at rest, drawn at size 8. *)
Lemma drawBoid_triangle_witness :
  ∃ direction x0 y0 x1 y1 x2 y2 : R,
    drawBoid (Fin 8) (boid_at 3 4 0 0)
    = (set_angle (Fin direction) (boid_at 3 4 0 0),
       [point x0 y0; point x1 y1; point x2 y2])
    ∧ ((x0 - 3) * (x0 - 3) + (y0 - 4) * (y0 - 4) = 8 * 8)%R
    ∧ ((x1 - 3) * (x1 - 3) + (y1 - 4) * (y1 - 4) = 8 * 8)%R
    ∧ ((x2 - 3) * (x2 - 3) + (y2 - 4) * (y2 - 4) = 8 * 8)%R
    ∧ (x0 + x1 + x2 = 3 * 3)%R
    ∧ (y0 + y1 + y2 = 3 * 4)%R.
Proof.
  apply (drawBoid_triangle 8 3 4 0 0 (boid_at 3 4 0 0)); reflexivity.
Defined.

(** The direction that [Math.atan2] gives a vector of reals that is not
    zero is the direction of the vector. *)
Lemma angle_of_direction (a b : R) :
  (0 < R_sqrt.sqrt (a * a + b * b))%R →
  Rtrigo_def.cos (Num.angle_of b a) = (a / R_sqrt.sqrt (a * a + b * b))%R
  ∧ Rtrigo_def.sin (Num.angle_of b a) = (b / R_sqrt.sqrt (a * a + b * b))%R.
Proof.
  intros Hm. set (m := R_sqrt.sqrt (a * a + b * b)) in *.
  assert (m * m = a * a + b * b)%R as Hmm by (apply sqrt_sqrt, sum_squares_nonneg).
  set (t := (b / a)%R). set (s := R_sqrt.sqrt (1 + t²)).
  assert (0 < 1 + t²)%R as Hts by (unfold Rsqr; nra).
  assert (0 < s)%R as Hs by (by apply sqrt_lt_R0).
  assert (s * s = 1 + t²)%R as Hss by (apply sqrt_sqrt; lra).
  unfold Num.angle_of. repeat case_decide.
  - assert (m = a * s)%R as Hmas.
    { apply NumFacts.sqrt_of_square; [nra|].
      replace (a * s * (a * s))%R with (a * a * (s * s))%R by lra.
      rewrite Hss. unfold Rsqr, t. field. lra. }
    fold t. rewrite cos_atan, sin_atan. fold s. rewrite Hmas. unfold t.
    split; field; lra.
  - assert (m = - a * s)%R as Hmas.
    { apply NumFacts.sqrt_of_square; [nra|].
      replace (- a * s * (- a * s))%R with (a * a * (s * s))%R by lra.
      rewrite Hss. unfold Rsqr, t. field. lra. }
    fold t. rewrite cos_minus, sin_minus, cos_PI, sin_PI, cos_atan, sin_atan.
    fold s. rewrite Hmas. unfold t. split; field; lra.
  - assert (m = - a * s)%R as Hmas.
    { apply NumFacts.sqrt_of_square; [nra|].
      replace (- a * s * (- a * s))%R with (a * a * (s * s))%R by lra.
      rewrite Hss. unfold Rsqr, t. field. lra. }
    fold t. rewrite neg_cos, neg_sin, cos_atan, sin_atan.
    fold s. rewrite Hmas. unfold t. split; field; lra.
  - assert (a = 0)%R as -> by lra.
    assert (m = b) as Hmb by (apply NumFacts.sqrt_of_square; lra).
    rewrite cos_PI2, sin_PI2, Hmb. split; field; lra.
  - assert (a = 0)%R as -> by lra.
    assert (m = - b)%R as Hmb by (apply NumFacts.sqrt_of_square; lra).
    rewrite cos_neg, sin_neg, cos_PI2, sin_PI2, Hmb. split; field; lra.
  - assert (a = 0)%R as -> by lra. assert (b = 0)%R as -> by lra.
    replace (0 * 0 + 0 * 0)%R with 0%R in Hmm by lra. nra.
Qed.

(** The direction that [Math.atan2] gives lies between -PI and PI. *)
Lemma angle_of_bounds (a b : R) : (- PI <= Num.angle_of b a <= PI)%R.
Proof.
  pose proof PI_RGT_0 as Hpi.
  pose proof (atan_bound (b / a)) as Hbound.
  unfold Num.angle_of. repeat case_decide; try lra.
  - assert (0 < b / a)%R as Hq.
    { replace (b / a)%R with ((- b) / (- a))%R by (field; lra).
      apply Rdiv_lt_0_compat; lra. }
    pose proof (atan_increasing _ _ Hq) as Hinc. rewrite atan_0 in Hinc. lra.
  - assert (b / a <= 0)%R as Hq.
    { replace (b / a)%R with (- (b / (- a)))%R by (field; lra).
      assert (0 <= b / (- a))%R; [|lra].
      unfold Rdiv. apply Rmult_le_pos; [lra|].
      left. apply Rinv_0_lt_compat. lra. }
    destruct Hq as [Hq|Hq].
    + pose proof (atan_increasing _ _ Hq) as Hinc. rewrite atan_0 in Hinc. lra.
    + rewrite Hq, atan_0. lra.
Qed.

(** X13. For a finite velocity [v] that is not zero, the angle that
    [drawBoid] stores is a direction between -PI and PI whose cosine and
    sine are [v.x / |v|] and [v.y / |v|], and the first vertex of the
    triangle points where the boid is heading: it is the position plus
    [size] times [v] divided by its magnitude. *)
Theorem drawBoid_heading (size px py vx vy : R) (boid : Boid) :
  position boid = point px py →
  velocity boid = point vx vy →
  let m := R_sqrt.sqrt (vx * vx + vy * vy) in
  (0 < m)%R →
  (∃ direction : R,
     angle (fst (drawBoid (Fin size) boid)) = Fin direction
     ∧ (- PI <= direction <= PI)%R
     ∧ Rtrigo_def.cos direction = (vx / m)%R
     ∧ Rtrigo_def.sin direction = (vy / m)%R)
  ∧ head (snd (drawBoid (Fin size) boid))
    = Some (point (px + size * (vx / m)) (py + size * (vy / m))).
Proof.
  intros Hp Hv m Hm.
  assert (angle (fst (drawBoid (Fin size) boid)) = Fin (Num.angle_of vy vx)
          ∧ head (snd (drawBoid (Fin size) boid))
            = Some (point (px + size * Rtrigo_def.cos (Num.angle_of vy vx))
                          (py + size * Rtrigo_def.sin (Num.angle_of vy vx))))
    as [Hangle Hhead].
  { unfold drawBoid. rewrite Hv. cbn [point x y Num.atan2 fst snd head angle set_angle].
    split; [done|]. f_equal. by apply vertex_Fin. }
  destruct (angle_of_direction vx vy Hm) as [Hcos Hsin]. split.
  - exists (Num.angle_of vy vx).
    split_and!; [exact Hangle|apply angle_of_bounds..|exact Hcos|exact Hsin].
  - rewrite Hhead, Hcos, Hsin. reflexivity.
Qed.

(** A boid at the origin with velocity (3, 4), drawn at size 8: the vertex
    is at 8 times (3/5, 4/5). *)
Lemma drawBoid_heading_witness :
  (∃ direction : R,
     angle (fst (drawBoid (Fin 8) (boid_at 0 0 3 4))) = Fin direction
     ∧ (- PI <= direction <= PI)%R
     ∧ Rtrigo_def.cos direction = (3 / R_sqrt.sqrt (3 * 3 + 4 * 4))%R
     ∧ Rtrigo_def.sin direction = (4 / R_sqrt.sqrt (3 * 3 + 4 * 4))%R)
  ∧ head (snd (drawBoid (Fin 8) (boid_at 0 0 3 4)))
    = Some (point (0 + 8 * (3 / R_sqrt.sqrt (3 * 3 + 4 * 4)))
                  (0 + 8 * (4 / R_sqrt.sqrt (3 * 3 + 4 * 4)))).
Proof.
  apply (drawBoid_heading 8 0 0 3 4 (boid_at 0 0 3 4)); try reflexivity.
  rewrite (NumFacts.sqrt_of_square 5) by lra. lra.
Defined.

(** ** Drawing and updating *)

Section AngleFacts.

Variable this : BoidsModifier.
Variable mouse : Mouse.
Variables width height size : num.

Lemma insert_keeps_angles (boids : list Boid) (i : nat) boid boid' :
  boids !! i = Some boid →
  angle boid' = angle boid →
  angle <$> <[i := boid']> boids = angle <$> boids.
Proof.
  intros Hi Hsame. rewrite list_fmap_insert. apply list_insert_id.
  by rewrite list_lookup_fmap, Hi, Hsame.
Qed.

Lemma integrate_angles boids i : angle <$> integrate boids i = angle <$> boids.
Proof.
  unfold integrate. destruct (boids !! i) as [boid|] eqn:Hi; [|done].
  by apply (insert_keeps_angles boids i boid).
Qed.

Lemma wrap_angles boids i :
  angle <$> wrap width height size boids i = angle <$> boids.
Proof.
  unfold wrap. destruct (boids !! i) as [boid|] eqn:Hi; [|done].
  by apply (insert_keeps_angles boids i boid).
Qed.

Lemma update_boid_angles boids i :
  angle <$> update_boid this mouse width height size boids i = angle <$> boids.
Proof.
  unfold update_boid. rewrite wrap_angles.
  rewrite (velocity_step_angles i _ _ (applyBehaviors_step this mouse _ i)).
  apply integrate_angles.
Qed.

Lemma update_loop_angles n i boids :
  angle <$> update_loop this mouse width height size n i boids = angle <$> boids.
Proof.
  revert i boids. induction n as [|n IH]; intros i boids; [done|].
  simpl. rewrite IH. apply update_boid_angles.
Qed.

(** The rules on a store whose angles are erased. *)
Lemma lookup_erased (boids : list Boid) (i : nat) :
  (erase_angle <$> boids) !! i = erase_angle <$> boids !! i.
Proof. apply list_lookup_fmap. Qed.

Lemma foldl_erased {A} (f g : A → Boid → A) (a : A) (boids : list Boid) :
  (∀ a other, f a (erase_angle other) = g a other) →
  foldl f a (erase_angle <$> boids) = foldl g a boids.
Proof.
  intros Hfg. revert a. induction boids as [|other rest IH]; intros a; [done|].
  cbn [fmap list_fmap foldl]. rewrite Hfg. apply IH.
Qed.

Lemma coherence_loop_erased boid boids :
  coherence_loop this (erase_angle boid) (erase_angle <$> boids)
  = coherence_loop this boid boids.
Proof. unfold coherence_loop. apply foldl_erased. by intros [[? ?] ?] other. Qed.

Lemma match_loop_erased boid boids :
  match_loop this (erase_angle boid) (erase_angle <$> boids)
  = match_loop this boid boids.
Proof. unfold match_loop. apply foldl_erased. by intros [[? ?] ?] other. Qed.

Lemma avoid_loop_erased boid i j others moveX moveY :
  avoid_loop this (erase_angle boid) i j (erase_angle <$> others) moveX moveY
  = avoid_loop this boid i j others moveX moveY.
Proof.
  revert j moveX moveY. induction others as [|other rest IH]; intros j moveX moveY;
    [done|].
  cbn [fmap list_fmap avoid_loop]. cbn [erase_angle set_angle position].
  destruct (_ && _); apply IH.
Qed.

Lemma integrate_erased boids i :
  integrate (erase_angle <$> boids) i = erase_angle <$> integrate boids i.
Proof.
  unfold integrate. rewrite lookup_erased. destruct (boids !! i) as [boid|]; [|done].
  cbn [fmap option_fmap option_map]. by rewrite list_fmap_insert.
Qed.

Lemma wrap_erased boids i :
  wrap width height size (erase_angle <$> boids) i
  = erase_angle <$> wrap width height size boids i.
Proof.
  unfold wrap. rewrite lookup_erased. destruct (boids !! i) as [boid|]; [|done].
  cbn [fmap option_fmap option_map]. by rewrite list_fmap_insert.
Qed.

Lemma coherence_erased boids i :
  coherence this (erase_angle <$> boids) i = erase_angle <$> coherence this boids i.
Proof.
  unfold coherence. rewrite lookup_erased. destruct (boids !! i) as [boid|]; [|done].
  cbn [fmap option_fmap option_map]. rewrite coherence_loop_erased.
  destruct (coherence_loop this boid boids) as [[centerX centerY] numNeighbors].
  case_bool_decide; [|done]. by rewrite list_fmap_insert.
Qed.

Lemma avoidOthers_erased boids i :
  avoidOthers this (erase_angle <$> boids) i = erase_angle <$> avoidOthers this boids i.
Proof.
  unfold avoidOthers. rewrite lookup_erased. destruct (boids !! i) as [boid|]; [|done].
  cbn [fmap option_fmap option_map]. rewrite avoid_loop_erased.
  destruct (avoid_loop this boid i 0 boids (Fin 0) (Fin 0)) as [moveX moveY].
  by rewrite list_fmap_insert.
Qed.

Lemma avoidMouse_erased boids i :
  avoidMouse this mouse (erase_angle <$> boids) i
  = erase_angle <$> avoidMouse this mouse boids i.
Proof.
  unfold avoidMouse. rewrite lookup_erased. destruct (boids !! i) as [boid|]; [|done].
  cbn [fmap option_fmap option_map]. cbn [erase_angle set_angle position].
  destruct (Num.lt _ _); [|done]. by rewrite list_fmap_insert.
Qed.

Lemma matchVelocity_erased boids i :
  matchVelocity this (erase_angle <$> boids) i
  = erase_angle <$> matchVelocity this boids i.
Proof.
  unfold matchVelocity. rewrite lookup_erased. destruct (boids !! i) as [boid|]; [|done].
  cbn [fmap option_fmap option_map]. unfold match_blend.
  rewrite match_loop_erased. by rewrite list_fmap_insert.
Qed.

Lemma update_boid_erased boids i :
  update_boid this mouse width height size (erase_angle <$> boids) i
  = erase_angle <$> update_boid this mouse width height size boids i.
Proof.
  unfold update_boid, applyBehaviors.
  by rewrite integrate_erased, coherence_erased, avoidOthers_erased,
    avoidMouse_erased, matchVelocity_erased, wrap_erased.
Qed.

Lemma update_loop_erased n i boids :
  update_loop this mouse width height size n i (erase_angle <$> boids)
  = erase_angle <$> update_loop this mouse width height size n i boids.
Proof.
  revert i boids. induction n as [|n IH]; intros i boids; [done|].
  simpl. by rewrite update_boid_erased, IH.
Qed.

Lemma updateBoids_erased boids :
  updateBoids this mouse width height size (erase_angle <$> boids)
  = erase_angle <$> updateBoids this mouse width height size boids.
Proof. unfold updateBoids. rewrite length_fmap. apply update_loop_erased. Qed.

Lemma drawn_erased (boids : list Boid) :
  erase_angle <$> (fst <$> (drawBoid size <$> boids)) = erase_angle <$> boids.
Proof. rewrite <- !list_fmap_compose. by apply list_fmap_ext. Qed.

End AngleFacts.

(** X14. [updateBoids] changes no angle.  Hence after [render], which
    draws before it updates, the angle of each boid is the direction of
    the velocity it had before the update of this frame, and one triangle
    was drawn per boid. *)
Theorem render_angles (this : BoidsModifier) (mouse : Mouse)
    (width height size : num) (boids : list Boid) :
  angle <$> updateBoids this mouse width height size boids = angle <$> boids
  ∧ angle <$> fst (render this mouse width height size boids)
    = (fun boid => Num.atan2 (y (velocity boid)) (x (velocity boid))) <$> boids
  ∧ length (snd (render this mouse width height size boids)) = length boids.
Proof.
  split_and!.
  - apply update_loop_angles.
  - unfold render. cbn [fst]. unfold updateBoids. rewrite update_loop_angles.
    rewrite <- !list_fmap_compose. by apply list_fmap_ext.
  - unfold render. cbn [snd]. by rewrite !length_fmap.
Qed.

(** X15. The angle never feeds back into the motion: [updateBoids]
    commutes with the erasure of the angles, and the positions and the
    velocities after [render] are those that [updateBoids] gives the boids
    that were not drawn. *)
Theorem angle_never_read (this : BoidsModifier) (mouse : Mouse)
    (width height size : num) (boids : list Boid) :
  updateBoids this mouse width height size (erase_angle <$> boids)
  = erase_angle <$> updateBoids this mouse width height size boids
  ∧ position <$> fst (render this mouse width height size boids)
    = position <$> updateBoids this mouse width height size boids
  ∧ velocity <$> fst (render this mouse width height size boids)
    = velocity <$> updateBoids this mouse width height size boids.
Proof.
  assert (erase_angle <$> fst (render this mouse width height size boids)
          = erase_angle <$> updateBoids this mouse width height size boids) as Hsame.
  { unfold render. cbn [fst].
    by rewrite <- !updateBoids_erased, drawn_erased. }
  split_and!.
  - apply updateBoids_erased.
  - apply (f_equal (fmap position)) in Hsame.
    by rewrite <- !list_fmap_compose in Hsame.
  - apply (f_equal (fmap velocity)) in Hsame.
    by rewrite <- !list_fmap_compose in Hsame.
Qed.

(** ** A velocity that is not a number *)

Section LostFacts.

Import Num NumFacts.

Variable this : BoidsModifier.
Variable mouse : Mouse.
Variables width height size : num.

Lemma add_NaN_r (a : num) : add a NaN = NaN.
Proof. by destruct a. Qed.

Lemma lt_NaN_r (a : num) : lt a NaN = false.
Proof. by destruct a. Qed.

Lemma distance_nan_l (q : Vec) : distance nan_vec q = NaN.
Proof. reflexivity. Qed.

Lemma distance_nan_r (p : Vec) : distance p nan_vec = NaN.
Proof.
  unfold distance, sub, nan_vec. cbn [x y neg]. by rewrite !add_NaN_r.
Qed.

Lemma neighbors_lost boid boids :
  position boid = nan_vec → neighbors this boid boids = [].
Proof.
  intros Hp. unfold neighbors. rewrite Hp.
  induction boids as [|other rest IH]; [done|].
  rewrite filter_cons, distance_nan_l. by rewrite decide_False.
Qed.

(** The shape of the three rules that add to the velocity. *)
Lemma pushed_lost boid e1 e2 :
  lost boid →
  lost (set_velocity (add (x (velocity boid)) e1) (add (y (velocity boid)) e2) boid).
Proof. intros [Hp Hv]. split; [done|]. cbn [velocity set_velocity]. by rewrite Hv. Qed.

Lemma lookup_pushed_lost (boids : list Boid) (i : nat) boid e1 e2 :
  boids !! i = Some boid →
  lost boid →
  ∃ boid',
    <[i := set_velocity (add (x (velocity boid)) e1) (add (y (velocity boid)) e2) boid]>
      boids !! i = Some boid'
    ∧ lost boid'.
Proof.
  intros Hi Hlost. eexists. split; [|by apply pushed_lost].
  apply list_lookup_insert_eq. by eapply lookup_lt_Some.
Qed.

Lemma coherence_lost boids i boid :
  boids !! i = Some boid → lost boid →
  ∃ boid', coherence this boids i !! i = Some boid' ∧ lost boid'.
Proof.
  intros Hi Hlost. unfold coherence. rewrite Hi.
  destruct (coherence_loop this boid boids) as [[centerX centerY] numNeighbors].
  case_bool_decide; [by apply lookup_pushed_lost|by exists boid].
Qed.

Lemma avoidOthers_lost boids i boid :
  boids !! i = Some boid → lost boid →
  ∃ boid', avoidOthers this boids i !! i = Some boid' ∧ lost boid'.
Proof.
  intros Hi Hlost. unfold avoidOthers. rewrite Hi.
  destruct (avoid_loop this boid i 0 boids (Fin 0) (Fin 0)) as [moveX moveY].
  by apply lookup_pushed_lost.
Qed.

Lemma avoidMouse_lost boids i boid :
  boids !! i = Some boid → lost boid →
  ∃ boid', avoidMouse this mouse boids i !! i = Some boid' ∧ lost boid'.
Proof.
  intros Hi Hlost. unfold avoidMouse. rewrite Hi.
  destruct (lt _ _); [by apply lookup_pushed_lost|by exists boid].
Qed.

Lemma match_rescale_nan : match_rescale this nan_vec = nan_vec.
Proof.
  unfold match_rescale, nan_vec. cbn [x y pow2 mul add sqrt]. unfold gt.
  by rewrite lt_NaN_r.
Qed.

Lemma matchVelocity_lost boids i boid :
  boids !! i = Some boid → lost boid →
  ∃ boid', matchVelocity this boids i !! i = Some boid' ∧ lost boid'.
Proof.
  intros Hi [Hp Hv]. unfold matchVelocity. rewrite Hi.
  rewrite match_blend_alone by (by apply neighbors_lost).
  rewrite Hv, match_rescale_nan. eexists. split.
  - apply list_lookup_insert_eq. by eapply lookup_lt_Some.
  - by split.
Qed.

Lemma wrap_coordinate_nan bound : wrap_coordinate size bound NaN = NaN.
Proof. unfold wrap_coordinate, gt. by rewrite lt_NaN_r. Qed.

Lemma update_boid_lost boids i boid :
  boids !! i = Some boid →
  velocity boid = nan_vec →
  ∃ boid', update_boid this mouse width height size boids i !! i = Some boid'
           ∧ lost boid'.
Proof.
  intros Hi Hv. unfold update_boid, applyBehaviors.
  pose proof (integrate_self boids i boid Hi) as H0.
  rewrite Hv in H0. cbn [nan_vec x y] in H0. rewrite !add_NaN_r in H0.
  assert (lost (set_position NaN NaN boid)) as Hlost0 by (by split).
  destruct (coherence_lost _ _ _ H0 Hlost0) as (b1 & H1 & Hlost1).
  destruct (avoidOthers_lost _ _ _ H1 Hlost1) as (b2 & H2 & Hlost2).
  destruct (avoidMouse_lost _ _ _ H2 Hlost2) as (b3 & H3 & Hlost3).
  destruct (matchVelocity_lost _ _ _ H3 Hlost3) as (b4 & H4 & [Hp4 Hv4]).
  rewrite (wrap_self width height size _ _ _ H4). eexists. split; [done|].
  split; [|done]. cbn [position set_position]. rewrite Hp4. cbn [nan_vec x y].
  by rewrite !wrap_coordinate_nan.
Qed.

(** The turn of a boid in the loop: the store it is applied to holds the
    boid as it was before the loop. *)
Lemma update_loop_turn n k boids i boid :
  boids !! i = Some boid →
  k ≤ i < k + n →
  ∃ store,
    store !! i = Some boid
    ∧ update_loop this mouse width height size n k boids !! i
      = update_boid this mouse width height size store i !! i.
Proof.
  revert k boids. induction n as [|n IH]; intros k boids Hi Hrange; [lia|].
  simpl. destruct (decide (i = k)) as [->|Hne].
  - exists boids. split; [done|]. by rewrite update_loop_before by lia.
  - apply IH; [|lia]. by rewrite update_boid_other.
Qed.

Lemma updateBoids_lost boids i boid :
  boids !! i = Some boid →
  velocity boid = nan_vec →
  ∃ boid', updateBoids this mouse width height size boids !! i = Some boid'
           ∧ lost boid'.
Proof.
  intros Hi Hv. unfold updateBoids.
  destruct (update_loop_turn (length boids) 0 boids i boid Hi) as (store & Hs & ->).
  { split; [lia|]. simpl. by eapply lookup_lt_Some. }
  by apply (update_boid_lost store i boid).
Qed.

End LostFacts.

Lemma frames_lost (this : BoidsModifier) (width height size : num)
    (pointer : list Mouse) (boids : list Boid) (i : nat) (boid : Boid) :
  boids !! i = Some boid →
  lost boid →
  ∃ boid', frames this width height size pointer boids !! i = Some boid' ∧ lost boid'.
Proof.
  revert boids boid. induction pointer as [|mouse pointer IH]; intros boids boid Hi Hlost.
  - by exists boid.
  - unfold frames. cbn [foldl]. destruct Hlost as [Hp Hv].
    destruct (updateBoids_lost this mouse width height size boids i boid Hi Hv)
      as (boid1 & H1 & Hlost1).
    by apply (IH _ boid1).
Qed.

(** X16. A boid whose velocity is NaN on both axes (what the division of
    zero by zero in [matchVelocity] leaves) never recovers: after one
    frame, and after any number of further frames, its position and its
    velocity are NaN, whatever the options, the pointer and the other
    boids.  It is within no range of any point. *)
Theorem nan_velocity_is_forever (this : BoidsModifier) (width height size : num)
    (mouse : Mouse) (pointer : list Mouse) (boids : list Boid) (i : nat)
    (boid : Boid) :
  boids !! i = Some boid →
  velocity boid = nan_vec →
  (∃ boid',
     frames this width height size (mouse :: pointer) boids !! i = Some boid'
     ∧ position boid' = nan_vec
     ∧ velocity boid' = nan_vec)
  ∧ ∀ (p : Vec) (range : num),
      Num.lt (distance p nan_vec) range = false
      ∧ Num.lt (distance nan_vec p) range = false.
Proof.
  intros Hi Hv. split.
  - destruct (updateBoids_lost this mouse width height size boids i boid Hi Hv)
      as (boid1 & H1 & Hlost1).
    destruct (frames_lost this width height size pointer _ i boid1 H1 Hlost1)
      as (boid' & Hlook & Hp' & Hv').
    by exists boid'.
  - intros p range. by rewrite distance_nan_r, distance_nan_l.
Qed.

(** A boid at the origin with a NaN velocity, after two frames. *)
Lemma nan_velocity_is_forever_witness :
  ∃ boid',
    frames default_modifier (Fin 800) (Fin 600) (Fin 8) [mouse_unset; mouse_at 10 10]
      [stalled_boid] !! 0 = Some boid'
    ∧ position boid' = nan_vec
    ∧ velocity boid' = nan_vec.
Proof.
  apply (nan_velocity_is_forever default_modifier (Fin 800) (Fin 600) (Fin 8)
           mouse_unset [mouse_at 10 10] [stalled_boid] 0 stalled_boid);
    reflexivity.
Defined.

(** ** A boid alone *)




(** ** The store that a turn sees *)

Section InPlaceFacts.

Variable this : BoidsModifier.
Variable mouse : Mouse.
Variables width height size : num.

#[local] Abbreviation loop := (update_loop this mouse width height size).

Lemma update_loop_app n m k boids :
  loop (n + m) k boids = loop m (k + n) (loop n k boids).
Proof.
  revert k boids. induction n as [|n IH]; intros k boids.
  - simpl. by rewrite Nat.add_0_r.
  - simpl. rewrite IH. f_equal. lia.
Qed.

(** The turns of the boids before index [j] leave the boid of index [j]
    alone. *)
Lemma update_loop_after n k boids j :
  k + n ≤ j → loop n k boids !! j = boids !! j.
Proof.
  revert k boids. induction n as [|n IH]; intros k boids Hle; [done|].
  simpl. rewrite IH by lia.
  apply (update_boid_other this mouse width height size). lia.
Qed.

End InPlaceFacts.

(** X18. [updateBoids] updates the array in place, boid after boid: the
    turn of the boid of index [i] is applied to a store that holds the
    boids before it as the frame leaves them, and this boid and the ones
    after it as they were before the frame. *)
Theorem updateBoids_in_place (this : BoidsModifier) (mouse : Mouse)
    (width height size : num) (boids : list Boid) (i : nat) :
  i < length boids →
  ∃ store,
    length store = length boids
    ∧ (∀ j, j < i →
         store !! j = updateBoids this mouse width height size boids !! j)
    ∧ (∀ j, i ≤ j → store !! j = boids !! j)
    ∧ updateBoids this mouse width height size boids !! i
      = update_boid this mouse width height size store i !! i.
Proof.
  intros Hi.
  set (store := update_loop this mouse width height size i 0 boids).
  assert (updateBoids this mouse width height size boids
          = update_loop this mouse width height size (length boids - i) i store)
    as Hsplit.
  { unfold updateBoids, store.
    replace (length boids) with (i + (length boids - i)) at 1 by lia.
    by rewrite update_loop_app. }
  exists store. split_and!.
  - apply update_loop_length.
  - intros j Hj. rewrite Hsplit. by rewrite update_loop_before.
  - intros j Hj. apply update_loop_after. lia.
  - rewrite Hsplit.
    replace (length boids - i) with (S (length boids - S i)) by lia.
    simpl. by rewrite update_loop_before by lia.
Qed.

(** The second of the two boids 5 apart that both move to the right. *)
Lemma updateBoids_in_place_witness :
  ∃ store,
    length store = length pair_moving
    ∧ (∀ j, j < 1 → store !! j = one_frame pair_moving !! j)
    ∧ (∀ j, 1 ≤ j → store !! j = pair_moving !! j)
    ∧ one_frame pair_moving !! 1
      = update_boid default_modifier mouse_unset (Fin 800) (Fin 600) (Fin 8)
          store 1 !! 1.
Proof.
  apply (updateBoids_in_place default_modifier mouse_unset (Fin 800) (Fin 600)
           (Fin 8) pair_moving 1).
  simpl. lia.
Defined.
